(** * Layout and (de)serialization engine of utilium's [struct.ts]

    A shallow embedding of the struct layout engine of utilium
    ([src/struct.ts], the version with [_memberLength], [dynamicOffsets],
    [offsetof], [align], [struct], [member], [serialize] and [deserialize];
    [src/internal/primitives.ts] for the primitive registry and the 128-bit
    codecs).

    Conventions of the model:
    - a JavaScript number held by a value is an integer [Z], [NaN] is the
      value [JNaN] and the result [None] of [to_number]; the sizes, offsets
      and lengths the code computes are of type [num], an integer or [NaN]
      ([undefined] read as a number), so that [NaN] propagates as in the
      source;
    - values are trees: an object reachable twice in an instance is two
      copies in the model;
    - [in] and property reads see an instance's own properties and those it
      inherits from [Object.prototype] (its class declares no methods or
      accessors);
    - a byte buffer ([Uint8Array] / the bytes of a [DataView]) is a [list Z]
      of values in [0, 256);
    - thrown exceptions are the [Throw] case of the [result] monad;
    - the decorator metadata objects, the [struct] objects hanging off them
      and the [init] arrays are kept in an explicit heap, because the
      metadata of a subclass is created by [Object.create] over the metadata
      of its base class and is shared by reference. *)

From Stdlib Require Import ZArith List String Ascii Bool Lia.
Import ListNotations.
Open Scope string_scope.
Open Scope Z_scope.
Open Scope list_scope.

(* ------------------------------------------------------------------ *)
(** ** Exceptions and the error monad *)

Inductive js_error :=
| TypeError (msg : string)
| RangeError
| ReferenceError (msg : string)
| SyntaxError (msg : string)
| Error (msg : string).

Inductive result (A : Type) :=
| Ok (a : A)
| Throw (e : js_error).
Arguments Ok {A} a.
Arguments Throw {A} e.

Definition bind {A B} (m : result A) (k : A -> result B) : result B :=
  match m with
  | Ok a => k a
  | Throw e => Throw e
  end.

Notation "'let*' x ':=' m 'in' k" := (bind m (fun x => k))
  (at level 200, x pattern, m at level 100, k at level 200).

Definition is_ok {A} (r : result A) : bool :=
  match r with Ok _ => true | Throw _ => false end.

(* ------------------------------------------------------------------ *)
(** ** [align] (struct.ts)

    [Math.ceil(value / alignment) * alignment].  Byte counts are integers;
    [Z.div] is floor division, so the ceiling of [value / alignment] is
    [- ((- value) / alignment)]. *)

Definition align (value alignment : Z) : Z :=
  (- ((- value) / alignment)) * alignment.

(* ------------------------------------------------------------------ *)
(** ** Numbers of the size and offset arithmetic

    A size, offset or length is an integer or [NaN]: [NaN] comes from
    reading [staticSize] on a class whose [@struct] decorator has not run
    ([undefined]) or from a counting property that holds [NaN], and it
    propagates through [+], [*], [Math.abs], [Math.max] and [align]. *)

Inductive num := Fin (z : Z) | NaN.

Definition num_add (x y : num) : num :=
  match x, y with Fin a, Fin b => Fin (a + b) | _, _ => NaN end.

Definition num_mul (x y : num) : num :=
  match x, y with Fin a, Fin b => Fin (a * b) | _, _ => NaN end.

(** [Math.abs] *)
Definition num_abs (x : num) : num :=
  match x with Fin a => Fin (Z.abs a) | NaN => NaN end.

(** [Math.max(x, y)]: [NaN] when either argument is. *)
Definition num_max (x y : num) : num :=
  match x, y with Fin a, Fin b => Fin (Z.max a b) | _, _ => NaN end.

(** [align(value, alignment)]: [Math.ceil(NaN / a) * a] is [NaN]. *)
Definition num_align (x : num) (alignment : Z) : num :=
  match x with Fin v => Fin (align v alignment) | NaN => NaN end.

(** [ToIntegerOrInfinity], which typed arrays and [DataView] apply to
    offsets and lengths: [NaN] is 0. *)
Definition to_int (x : num) : Z :=
  match x with Fin z => z | NaN => 0 end.

(** The order of sizes and offsets along a layout: integers by [<=], and
    [NaN], which every later sum and alignment keeps, above all of them. *)
Definition num_le (x y : num) : Prop :=
  match x, y with
  | Fin a, Fin b => a <= b
  | _, NaN => True
  | NaN, Fin _ => False
  end.

(** [x] is a multiple of [a], or [NaN]. *)
Definition num_multiple (x : num) (a : Z) : Prop :=
  match x with Fin z => z mod a = 0 | NaN => True end.

(* ------------------------------------------------------------------ *)
(** ** Bytes of a [DataView] *)

(** The [n] low bytes of [x], least significant first (two's complement, so
    negative values wrap as [ToBigInt64], [ToInt32], ... do). *)
Fixpoint le_bytes (n : nat) (x : Z) : list Z :=
  match n with
  | O => []
  | S n' => Z.land x 255 :: le_bytes n' (Z.shiftr x 8)
  end.

(** Unsigned value of bytes, least significant first. *)
Fixpoint le_value (bs : list Z) : Z :=
  match bs with
  | [] => 0
  | b :: rest => Z.lor b (Z.shiftl (le_value rest) 8)
  end.

(** Byte order of a [DataView] access: [littleEndian] keeps the least
    significant byte first, otherwise the bytes are reversed. *)
Definition encode (n : nat) (x : Z) (littleEndian : bool) : list Z :=
  if littleEndian then le_bytes n x else rev (le_bytes n x).

Definition decode (bs : list Z) (littleEndian : bool) : Z :=
  if littleEndian then le_value bs else le_value (rev bs).

Definition to_signed (bits u : Z) : Z :=
  if u <? 2 ^ (bits - 1) then u else u - 2 ^ bits.

Definition in_bounds (view : list Z) (offset width : Z) : bool :=
  (0 <=? offset) && (offset + width <=? Z.of_nat (List.length view)).

(** Reading [width] bytes at [offset]; out of range is a [RangeError]. *)
Definition dv_get (view : list Z) (offset width : Z) : result (list Z) :=
  if in_bounds view offset width
  then Ok (firstn (Z.to_nat width) (skipn (Z.to_nat offset) view))
  else Throw RangeError.

Definition put_bytes (view : list Z) (offset : nat) (bs : list Z) : list Z :=
  firstn offset view ++ bs ++ skipn (offset + List.length bs) view.

(** Writing the bytes [bs] at [offset]; out of range is a [RangeError]. *)
Definition dv_put (view : list Z) (offset : Z) (bs : list Z) : result (list Z) :=
  if in_bounds view offset (Z.of_nat (List.length bs))
  then Ok (put_bytes view (Z.to_nat offset) bs)
  else Throw RangeError.

Definition getBigUint64 (view : list Z) (offset : Z) (le : bool) : result Z :=
  let* bs := dv_get view offset 8 in Ok (decode bs le).

Definition getBigInt64 (view : list Z) (offset : Z) (le : bool) : result Z :=
  let* bs := dv_get view offset 8 in Ok (to_signed 64 (decode bs le)).

Definition setBigUint64 (view : list Z) (offset value : Z) (le : bool) : result (list Z) :=
  dv_put view offset (encode 8 value le).

Definition setBigInt64 (view : list Z) (offset value : Z) (le : bool) : result (list Z) :=
  dv_put view offset (encode 8 value le).

(* ------------------------------------------------------------------ *)
(** ** The 128-bit codecs ([types.int128], [types.uint128] of
    internal/primitives.ts) *)

Definition mask64 : Z := Z.ones 64.

Definition int128_get (view : list Z) (offset : Z) (le : bool) : result Z :=
  let* hi := getBigInt64 view (offset + (if le then 8 else 0)) le in
  let* lo := getBigUint64 view (offset + (if le then 0 else 8)) le in
  Ok (Z.lor (Z.shiftl hi 64) lo).

(** [types.int128.set]: two 64-bit writes.  A [DataView] setter checks its
    bounds before writing, so when the second write throws the first one has
    already changed the view: the result is the view afterwards together
    with the outcome. *)
Definition int128_set (view : list Z) (offset : Z) (le : bool) (value : Z) : list Z * result unit :=
  match setBigUint64 view (offset + (if le then 0 else 8)) (Z.land value mask64) le with
  | Throw e => (view, Throw e)
  | Ok v1 =>
      match setBigInt64 v1 (offset + (if le then 8 else 0)) (Z.shiftr value 64) le with
      | Throw e => (v1, Throw e)
      | Ok v2 => (v2, Ok tt)
      end
  end.

Definition uint128_get (view : list Z) (offset : Z) (le : bool) : result Z :=
  let* hi := getBigUint64 view (offset + (if le then 8 else 0)) le in
  let* lo := getBigUint64 view (offset + (if le then 0 else 8)) le in
  Ok (Z.lor (Z.shiftl hi 64) lo).

Definition uint128_set (view : list Z) (offset : Z) (le : bool) (value : Z) : list Z * result unit :=
  match setBigUint64 view (offset + (if le then 0 else 8)) (Z.land value mask64) le with
  | Throw e => (view, Throw e)
  | Ok v1 =>
      match setBigUint64 v1 (offset + (if le then 8 else 0)) (Z.shiftr value 64) le with
      | Throw e => (v1, Throw e)
      | Ok v2 => (v2, Ok tt)
      end
  end.

(* ------------------------------------------------------------------ *)
(** ** The primitive registry (internal/primitives.ts, the version with
    [regex = /^(u?int|float)(8|16|32|64)$/i] that struct.ts uses through
    [primitive.regex], [primitive.isType] and [primitive.normalize]) *)

Inductive pkind := PInt | PUint | PFloat.

Record prim := mkPrim { p_kind : pkind; p_bits : Z }.

Definition lower_ascii (c : ascii) : ascii :=
  let n := nat_of_ascii c in
  if (65 <=? n)%nat && (n <=? 90)%nat then ascii_of_nat (n + 32) else c.

Fixpoint lowercase (s : string) : string :=
  match s with
  | EmptyString => EmptyString
  | String c rest => String (lower_ascii c) (lowercase rest)
  end.

(** The names the regex accepts once lower-cased. *)
Definition prim_table : list (string * prim) :=
  [("int8", mkPrim PInt 8); ("int16", mkPrim PInt 16); ("int32", mkPrim PInt 32);
   ("int64", mkPrim PInt 64); ("uint8", mkPrim PUint 8); ("uint16", mkPrim PUint 16);
   ("uint32", mkPrim PUint 32); ("uint64", mkPrim PUint 64);
   ("float8", mkPrim PFloat 8); ("float16", mkPrim PFloat 16);
   ("float32", mkPrim PFloat 32); ("float64", mkPrim PFloat 64)].

Fixpoint assoc {A} (k : string) (l : list (string * A)) : option A :=
  match l with
  | [] => None
  | (k', v) :: rest => if String.eqb k k' then Some v else assoc k rest
  end.

Definition regex_match (s : string) : option prim := assoc (lowercase s) prim_table.

(** [primitive.isValid]: [type == 'char' || regex.test(type.toLowerCase())]. *)
Definition isValid (s : string) : bool :=
  String.eqb s "char" || match regex_match s with Some _ => true | None => false end.

(** [primitive.normalize]: ['char'] is ['uint8'], other names are lower-cased. *)
Definition normalize (s : string) : string :=
  if String.eqb s "char" then "uint8" else lowercase s.

(* ------------------------------------------------------------------ *)
(** ** Declarations: members, options and metadata ([internal/struct.ts]) *)

(** A member's declared type: a primitive type name, a class (named by its
    decorator metadata object, see the heap below), or any other value. *)
Inductive typelike := TName (s : string) | TClass (c : nat) | TOther.

(** A member's length: a fixed number or the name of the counting field. *)
Inductive len := LNum (n : Z) | LName (k : string).

Record MemberInit := mkInit { mi_name : string; mi_type : typelike; mi_length : option len }.

(** The type recorded on a member: the normalized primitive, or the class. *)
Inductive mtype := MPrim (p : prim) | MStruct (c : nat).

Record Member := mkMember { staticOffset : num; m_type : mtype; m_length : option len }.

(** [Partial<Options>]: [align] may be missing, the flags default to false. *)
Record Options := mkOptions { o_align : option Z; o_bigEndian : bool; o_isUnion : bool }.

Definition default_options : Options := mkOptions None false false.

Record Metadata := mkMeta {
  md_options : Options;
  md_members : list (string * Member);
  md_staticSize : num;
  md_isDynamic : bool }.

(** [Map.prototype.set]: an existing key keeps its place and takes the new
    value; a new key goes last. *)
Fixpoint map_set {A} (m : list (string * A)) (k : string) (v : A) : list (string * A) :=
  match m with
  | [] => [(k, v)]
  | (k', v') :: rest => if String.eqb k k' then (k, v) :: rest else (k', v') :: map_set rest k v
  end.

(* ------------------------------------------------------------------ *)
(** ** The decorator metadata heap

    TypeScript gives every decorated class one metadata object,
    [Object.create(Base[Symbol.metadata] ?? null)], shared by the [context]
    of all its decorators.  [member] and [struct] store an object under the
    key [struct] of it; [member] pushes onto that object's [init] array.
    Objects live in a heap indexed by [nat]. *)

Inductive hobj :=
| HMeta (proto : option nat) (struct_ : option nat)
    (** a metadata object: its prototype and its own [struct] property *)
| HStruct (init : option nat) (final : option Metadata)
    (** a [struct] object: its [init] array, and the [options], [members],
        [staticSize], [isDynamic] fields written by [struct] *)
| HInit (items : list MemberInit)
    (** an [init] array *).

Definition heap := list hobj.

Fixpoint replace_nth {A} (l : list A) (n : nat) (x : A) : list A :=
  match l, n with
  | [], _ => []
  | _ :: rest, O => x :: rest
  | y :: rest, S n' => y :: replace_nth rest n' x
  end.

Definition alloc (h : heap) (o : hobj) : heap * nat := (h ++ [o], List.length h).

Definition undefined_property {A} : result A :=
  Throw (TypeError "Cannot read properties of undefined").

(** [md.struct]: the own property, else the prototype's ([[Get]]). *)
Fixpoint get_struct_fuel (fuel : nat) (h : heap) (md : nat) : option nat :=
  match fuel with
  | O => None
  | S fuel' =>
      match nth_error h md with
      | Some (HMeta _ (Some s)) => Some s
      | Some (HMeta (Some p) None) => get_struct_fuel fuel' h p
      | _ => None
      end
  end.

Definition get_struct (h : heap) (md : nat) : option nat :=
  get_struct_fuel (List.length h) h md.

(** [md.struct = s]: an own property of [md]. *)
Definition set_own_struct (h : heap) (md s : nat) : result heap :=
  match nth_error h md with
  | Some (HMeta proto _) => Ok (replace_nth h md (HMeta proto (Some s)))
  | _ => undefined_property
  end.

(** [context.metadata.struct ??= {}] *)
Definition ensure_struct (h : heap) (md : nat) : result (heap * nat) :=
  match get_struct h md with
  | Some s => Ok (h, s)
  | None =>
      let (h1, s) := alloc h (HStruct None None) in
      let* h2 := set_own_struct h1 md s in Ok (h2, s)
  end.

(** [context.metadata.struct.init ??= []]: the property is written on the
    [struct] object that was found, which may be the base class's. *)
Definition ensure_init (h : heap) (s : nat) : result (heap * nat) :=
  match nth_error h s with
  | Some (HStruct (Some a) _) => Ok (h, a)
  | Some (HStruct None fin) =>
      let (h1, a) := alloc h (HInit []) in
      Ok (replace_nth h1 s (HStruct (Some a) fin), a)
  | _ => undefined_property
  end.

Definition read_init (h : heap) (a : nat) : result (list MemberInit) :=
  match nth_error h a with
  | Some (HInit items) => Ok items
  | _ => undefined_property
  end.

(** [member(type, length)] applied to a field named [mi_name]:
    [context.metadata.struct.init.push({ name, type, length })]. *)
Definition member_decorator (h : heap) (md : nat) (mi : MemberInit) : result heap :=
  if String.eqb (mi_name mi) "" then Throw (ReferenceError "Invalid name for struct member") else
  let* (h1, s) := ensure_struct h md in
  let* (h2, a) := ensure_init h1 s in
  let* items := read_init h2 a in
  Ok (replace_nth h2 a (HInit (items ++ [mi]))).

(** The metadata [struct] wrote for the class whose metadata object is [c],
    as [sizeof], [offsetof], [serialize] and [deserialize] of an instance
    read it.  On a [struct] object the [@struct] decorator has not finished,
    [struct.members] is [undefined] and the code throws a [TypeError] when
    it iterates over it or calls its [get]. *)
Definition class_meta (h : heap) (c : nat) : result Metadata :=
  match get_struct h c with
  | Some s =>
      match nth_error h s with
      | Some (HStruct _ (Some m)) => Ok m
      | _ => Throw (TypeError "struct.members is undefined")
      end
  | None => undefined_property
  end.

(** [sizeof(type)] of a class: after [checkStruct], [struct.staticSize],
    which is [undefined], hence [NaN] in arithmetic, on a [struct] object the
    [@struct] decorator has not finished. *)
Definition sizeof_class (h : heap) (c : nat) : result num :=
  match get_struct h c with
  | Some s =>
      match nth_error h s with
      | Some (HStruct _ (Some m)) => Ok (md_staticSize m)
      | _ => Ok NaN
      end
  | None => Throw (TypeError "is not a struct")
  end.

(** [isStatic]: a class whose metadata has a [struct] entry. *)
Definition isStatic (h : heap) (t : typelike) : bool :=
  match t with
  | TClass c => match get_struct h c with Some _ => true | None => false end
  | _ => false
  end.

(** [sizeof] of a primitive name or of a struct class:
    [+normalize(type).match(regex)[2] / 8], or the class's [staticSize]. *)
Definition sizeof_type (h : heap) (t : typelike) : result num :=
  match t with
  | TName s =>
      if isValid s then
        match regex_match (normalize s) with
        | Some p => Ok (Fin (p_bits p / 8))
        | None => Throw (TypeError "Not a valid primitive type")
        end
      else Throw (TypeError "Not a valid primitive type")
  | TClass c => sizeof_class h c
  | TOther => Throw (TypeError "is not a struct")
  end.

Definition sizeof_mtype (h : heap) (t : mtype) : result num :=
  match t with
  | MPrim p => Ok (Fin (p_bits p / 8))
  | MStruct c => sizeof_class h c
  end.

(** [primitive.isValid(type) ? primitive.normalize(type) : type], after the
    check [!primitive.isValid(type) && !isStatic(type)]. *)
Definition member_type (h : heap) (t : typelike) : result mtype :=
  match t with
  | TName s =>
      if isValid s then
        match regex_match (normalize s) with
        | Some p => Ok (MPrim p)
        | None => Throw (TypeError "Not a valid type")
        end
      else Throw (TypeError "Not a valid type")
  | TClass c => if isStatic h t then Ok (MStruct c) else Throw (TypeError "Not a valid type")
  | TOther => Throw (TypeError "Not a valid type")
  end.

(** [options.align || 1] *)
Definition alignment (o : Options) : Z :=
  match o_align o with
  | None => 1
  | Some a => if a =? 0 then 1 else a
  end.

Definition is_counted (l : option len) : bool :=
  match l with Some (LName _) => true | _ => false end.

(** [typeof length == 'string' ? 0 : sizeof(type) * (length || 1)] *)
Definition memberSize (h : heap) (mi : MemberInit) : result num :=
  match mi_length mi with
  | Some (LName _) => Ok (Fin 0)
  | Some (LNum n) =>
      let* sz := sizeof_type h (mi_type mi) in Ok (num_mul sz (Fin (if n =? 0 then 1 else n)))
  | None => let* sz := sizeof_type h (mi_type mi) in Ok (num_mul sz (Fin 1))
  end.

(** The loop of [_decorateStruct] over [context.metadata.struct.init]. *)
Fixpoint layout_loop (h : heap) (options : Options) (inits : list MemberInit)
    (staticSize : num) (isDynamic : bool) (members : list (string * Member)) : result Metadata :=
  match inits with
  | [] => Ok (mkMeta options members staticSize isDynamic)
  | mi :: rest =>
      let* t := member_type h (mi_type mi) in
      let members' := map_set members (mi_name mi)
            (mkMember (if o_isUnion options then Fin 0 else staticSize) t (mi_length mi)) in
      let* size := memberSize h mi in
      let isDynamic' := isDynamic || is_counted (mi_length mi) in
      let s1 := if o_isUnion options then num_max staticSize size else num_add staticSize size in
      let s2 := num_align s1 (alignment options) in
      layout_loop h options rest s2 isDynamic' members'
  end.

Definition layout (h : heap) (options : Options) (inits : list MemberInit) : result Metadata :=
  layout_loop h options inits (Fin 0) false [].

(** [struct(options)] applied to the class whose metadata object is [md]. *)
Definition struct_decorator (h : heap) (md : nat) (options : Options) : result heap :=
  let* (h1, s) := ensure_struct h md in
  let* (h2, a) := ensure_init h1 s in
  let* inits := read_init h2 a in
  let* meta := layout h2 options inits in
  let (h3, s') := alloc h2 (HStruct None (Some meta)) in
  set_own_struct h3 md s'.

Fixpoint fold_result {A B} (f : A -> B -> result A) (l : list B) (a : A) : result A :=
  match l with
  | [] => Ok a
  | b :: rest => let* a' := f a b in fold_result f rest a'
  end.

(** Evaluating [@struct(options) class C extends Base { @member(...) f; ... }]:
    the metadata object is created over the base's, the member decorators run
    in field order, then the class decorator.  The class is named by its
    metadata object. *)
Definition define_class (h : heap) (base : option nat) (options : Options)
    (fields : list MemberInit) : result (heap * nat) :=
  let (h0, md) := alloc h (HMeta base None) in
  let* h1 := fold_result (fun h f => member_decorator h md f) fields h0 in
  let* h2 := struct_decorator h1 md options in
  Ok (h2, md).

(** [offsetof(type, memberName)] for a struct class [type]
    ([isStatic(type)] holds, so the static offset is returned). *)
Definition offsetof_static (h : heap) (c : nat) (name : string) : result num :=
  let* m := class_meta h c in
  match assoc name (md_members m) with
  | Some mem => Ok (staticOffset mem)
  | None => Throw (Error (String.append "Struct does not have member: " name))
  end.

(** [sizeof(type)] for a struct class. *)
Definition sizeof_static (h : heap) (c : nat) : result num := sizeof_class h c.

(* ------------------------------------------------------------------ *)
(** ** Values and instances *)

#[local] Set Warnings "-register-all".

(** JavaScript values as the walk meets them.  Numbers are integers or
    [NaN]; a string is its list of UTF-16 code units; a struct instance is
    its class (metadata object) and its own properties in order. *)
Inductive jsval :=
| JUndef
| JNull
| JBool (b : bool)
| JNum (n : Z)
| JNaN
| JBig (n : Z)
| JStr (s : list Z)
| JArr (items : list jsval)
| JInst (cls : nat) (fields : list (string * jsval)).

(** [instance[name]] *)
Definition get_field (fields : list (string * jsval)) (name : string) : jsval :=
  match assoc name fields with Some v => v | None => JUndef end.

(** [value[i]] *)
Definition get_index (v : jsval) (i : nat) : result jsval :=
  match v with
  | JUndef | JNull => undefined_property
  | JArr l => Ok (nth i l JUndef)
  | JStr s => Ok (match nth_error s i with Some c => JStr [c] | None => JUndef end)
  | _ => Ok JUndef
  end.

Definition truthy (v : jsval) : bool :=
  match v with
  | JUndef | JNull | JNaN | JBool false | JNum 0 | JBig 0 | JStr [] => false
  | _ => true
  end.

(** The white space and line terminators around a numeric string. *)
Definition str_space (c : Z) : bool :=
  existsb (Z.eqb c) [9; 10; 11; 12; 13; 32; 160; 5760; 8232; 8233; 8239; 8287; 12288; 65279]
  || ((8192 <=? c) && (c <=? 8202)).

Fixpoint drop_space (s : list Z) : list Z :=
  match s with
  | c :: rest => if str_space c then drop_space rest else s
  | [] => []
  end.

Definition trim_space (s : list Z) : list Z := rev (drop_space (rev (drop_space s))).

(** The value of a digit character, up to base 36. *)
Definition digit_value (c : Z) : option Z :=
  if (48 <=? c) && (c <=? 57) then Some (c - 48)
  else if (97 <=? c) && (c <=? 122) then Some (c - 87)
  else if (65 <=? c) && (c <=? 90) then Some (c - 55)
  else None.

Fixpoint digits_value (base acc : Z) (s : list Z) : option Z :=
  match s with
  | [] => Some acc
  | c :: rest =>
      match digit_value c with
      | Some d => if d <? base then digits_value base (acc * base + d) rest else None
      | None => None
      end
  end.

(** One or more digits of [base]. *)
Definition digits (base : Z) (s : list Z) : option Z :=
  match s with [] => None | _ => digits_value base 0 s end.

(** The integer literals of [StringToBigInt], which [Number] reads the same
    way: after trimming white space, the empty string is 0; otherwise
    decimal digits with an optional sign, or [0x], [0o], [0b] (in either
    case) followed by digits of that base, without sign.  [None] is a
    string of another form: [BigInt] throws a [SyntaxError] on it and
    [Number] gives [NaN]. *)
Definition string_integer (s : list Z) : option Z :=
  match trim_space s with
  | [] => Some 0
  | c :: rest =>
      if c =? 43 then digits 10 rest
      else if c =? 45 then option_map Z.opp (digits 10 rest)
      else if c =? 48 then
        match rest with
        | x :: ds =>
            if (x =? 120) || (x =? 88) then digits 16 ds
            else if (x =? 111) || (x =? 79) then digits 8 ds
            else if (x =? 98) || (x =? 66) then digits 2 ds
            else digits 10 (c :: rest)
        | [] => Some 0
        end
      else digits 10 (c :: rest)
  end.

(** [Number(value)] ([None] is [NaN]).  A string is read by
    [string_integer]; strings holding a fraction or an exponent denote
    numbers outside the model's integers and are not modelled.  An array
    converts through its string form, the [join] of its elements: [[]] is
    [""]; [[x]] is [""] for [null] or [undefined], the digits of a number or
    bigint, the string itself, the form of a nested array, and for [true],
    [false], [NaN] and objects a string that is not a number; an array with
    two elements or more has a comma in its form. *)
Fixpoint to_number (v : jsval) : option Z :=
  match v with
  | JNum n | JBig n => Some n
  | JNull | JBool false => Some 0
  | JBool true => Some 1
  | JStr s => string_integer s
  | JArr [] => Some 0
  | JArr [x] =>
      match x with
      | JUndef | JNull => Some 0
      | JNum n | JBig n => Some n
      | JStr s => string_integer s
      | JArr _ => to_number x
      | _ => None
      end
  | _ => None
  end.

Definition bigint_of_string (s : list Z) : result Z :=
  match string_integer s with
  | Some n => Ok n
  | None => Throw (SyntaxError "Cannot convert to a BigInt")
  end.

(** [BigInt(value)]: [undefined] and [null] are a [TypeError], [NaN] a
    [RangeError]; a string, an array or an object goes through its string
    form as for [Number], and a form that is not an integer literal is a
    [SyntaxError]. *)
Fixpoint to_bigint (v : jsval) : result Z :=
  match v with
  | JNum n | JBig n => Ok n
  | JBool b => Ok (if b then 1 else 0)
  | JNaN => Throw RangeError
  | JUndef | JNull => Throw (TypeError "Cannot convert to a BigInt")
  | JStr s => bigint_of_string s
  | JArr [] => Ok 0
  | JArr [x] =>
      match x with
      | JUndef | JNull => Ok 0
      | JNum n | JBig n => Ok n
      | JStr s => bigint_of_string s
      | JArr _ => to_bigint x
      | _ => Throw (SyntaxError "Cannot convert to a BigInt")
      end
  | _ => Throw (SyntaxError "Cannot convert to a BigInt")
  end.

(* ------------------------------------------------------------------ *)
(** ** Lengths, sizes and offsets of an instance (struct.ts) *)

(** A double quote character. *)
Definition dquote : string := String "034"%char EmptyString.

Definition max_safe_integer : Z := 2 ^ 53 - 1.

(** The properties every instance inherits: [constructor] from its class's
    prototype and those of [Object.prototype].  None holds a number. *)
Definition inherited_names : list string :=
  ["constructor"; "__defineGetter__"; "__defineSetter__"; "hasOwnProperty";
   "__lookupGetter__"; "__lookupSetter__"; "isPrototypeOf"; "propertyIsEnumerable";
   "toString"; "valueOf"; "__proto__"; "toLocaleString"].

(** [_memberLength(struct, name, length)]: [-1] for a scalar member, the
    fixed length, or the number held by the counting property ([NaN]
    included).  [length in struct] also sees the inherited properties. *)
Definition memberLength (fields : list (string * jsval)) (name : string) (length : option len)
    : result num :=
  match length with
  | None => Ok (Fin (-1))
  | Some (LNum n) =>
      if (0 <=? n) && (n <=? max_safe_integer) then Ok (Fin n)
      else Throw (Error "Array lengths must be natural numbers")
  | Some (LName k) =>
      let cannot_use := Throw (Error (String.append
                  (String.append "Can not use " (String.append dquote name))
                  (String.append dquote (String.append " to count " k)))) in
      match assoc k fields with
      | Some (JNum n) => Ok (Fin n)
      | Some JNaN => Ok NaN
      | Some _ => cannot_use
      | None =>
          if existsb (String.eqb k) inherited_names then cannot_use
          else Throw (Error (String.append
                  (String.append "Can not use non-existent member to count " name)
                  (String.append ": " k)))
      end
  end.

(** [sizeof(instance)]: the static size plus, for each member whose length
    is a string [key], [sizeof(memberType) * _memberLength(type, key, name)]
    (the arguments as the source passes them). *)
Definition sizeof_instance (h : heap) (c : nat) (fields : list (string * jsval)) : result num :=
  let* m := class_meta h c in
  fold_result (fun size '(name, mem) =>
      match m_length mem with
      | Some (LName key) =>
          let* sz := sizeof_mtype h (m_type mem) in
          let* n := memberLength fields key (Some (LName name)) in
          Ok (num_add size (num_mul sz n))
      | _ => Ok size
      end) (md_members m) (md_staticSize m).

(** [dynamicOffsets(instance)] *)
Definition dynamicOffsets (h : heap) (m : Metadata) (fields : list (string * jsval))
    : result (list (string * num)) :=
  let* (offsets, _) :=
    fold_result (fun '(offsets, offset) '(name, mem) =>
        let* length := memberLength fields name (m_length mem) in
        let* sz := sizeof_mtype h (m_type mem) in
        Ok (offsets ++ [(name, offset)], num_add offset (num_mul sz (num_abs length))))
      (md_members m) ([], Fin 0) in
  Ok offsets.

(** [offsetof(instance, memberName)] *)
Definition offsetof_instance (h : heap) (c : nat) (fields : list (string * jsval))
    (memberName : string) : result num :=
  let* m := class_meta h c in
  let missing := Throw (Error (String.append "Struct does not have member: " memberName)) in
  if negb (md_isDynamic m) then
    match assoc memberName (md_members m) with
    | Some mem => Ok (staticOffset mem)
    | None => missing
    end
  else
    (fix walk (ms : list (string * Member)) (offset : num) : result num :=
       match ms with
       | [] => missing
       | (name, mem) :: rest =>
           if String.eqb name memberName then Ok offset else
           let* length := memberLength fields name (m_length mem) in
           let* sz := sizeof_mtype h (m_type mem) in
           walk rest (num_add offset (num_mul sz (num_abs length)))
       end) (md_members m) (Fin 0).

(** [new Uint8Array(size)]: [ToIndex] makes [NaN] 0 and rejects negative
    sizes. *)
Definition new_uint8array (size : num) : result (list Z) :=
  match size with
  | NaN => Ok []
  | Fin z => if 0 <=? z then Ok (repeat 0 (Z.to_nat z)) else Throw RangeError
  end.

(** [new Uint8Array(buffer.subarray(begin, end))]: negative indices count
    from the end, indices are clamped to the buffer. *)
Definition subarray (buf : list Z) (b e : Z) : list Z :=
  let n := Z.of_nat (List.length buf) in
  let rel x := if x <? 0 then Z.max (n + x) 0 else Z.min x n in
  firstn (Z.to_nat (rel e - rel b)) (skipn (Z.to_nat (rel b)) buf).

(** [String(i)] for an array index. *)
Fixpoint index_key_aux (fuel n : nat) (acc : string) : string :=
  match fuel with
  | O => acc
  | S fuel' =>
      let acc' := String (ascii_of_nat (48 + n mod 10)) acc in
      if (n <? 10)%nat then acc' else index_key_aux fuel' (n / 10) acc'
  end.

Definition index_key (i : nat) : string := index_key_aux (S i) i EmptyString.

(** [array[i] = v] on a list: positions past the end become holes. *)
Fixpoint set_nth (l : list jsval) (i : nat) (v : jsval) : list jsval :=
  match l, i with
  | [], O => [v]
  | [], S i' => JUndef :: set_nth [] i' v
  | _ :: rest, O => v :: rest
  | x :: rest, S i' => x :: set_nth rest i' v
  end.

(** [object[i] = v] in strict mode code. *)
Definition assign_index (obj : jsval) (i : nat) (v : jsval) : result jsval :=
  match obj with
  | JArr l => Ok (JArr (set_nth l i v))
  | JInst c fs => Ok (JInst c (map_set fs (index_key i) v))
  | JUndef | JNull => Throw (TypeError "Cannot set properties of undefined")
  | _ => Throw (TypeError "Cannot create property on primitive")
  end.

(* ------------------------------------------------------------------ *)
(** ** [serialize] and [deserialize] (struct.ts)

    Both walks also return, as a ghost output, the list of the primitive
    [DataView] accesses they made at their own level, in order: member name,
    byte offset, primitive type, the [littleEndian] flag passed and the
    bytes written or read. *)

Record access := mkAccess {
  a_name : string; a_offset : Z; a_prim : prim; a_littleEndian : bool; a_bytes : list Z }.

(** [Math.abs(length)] iterations of the element loop; [i < NaN] is false. *)
Definition indices (length : num) : list nat :=
  match length with
  | Fin n => seq 0 (Z.to_nat (Z.abs n))
  | NaN => []
  end.

(** [length == -1], the test of a scalar member ([NaN != -1]). *)
Definition is_scalar (length : num) : bool :=
  match length with Fin n => n =? -1 | NaN => false end.

Definition bytes_of (p : prim) : Z := p_bits p / 8.

Section Walks.

(** The IEEE 754 encoding of a number (its bit pattern, [None] for [NaN])
    and the number a bit pattern decodes to, for a float of the given
    width. *)
Variable float_bits : Z -> option Z -> Z.
Variable float_value : Z -> Z -> jsval.

(** The integer a [DataView] setter stores for [value]: [BigInt(value)] for
    the 64-bit setters, [Number(value)] (with [NaN] stored as 0 by the
    integer conversions) for the others; for [float16] the engine's
    [setFloat16].  There is no [setFloat8]. *)
Definition prim_raw (p : prim) (value : jsval) : result Z :=
  match p_kind p with
  | PFloat =>
      if p_bits p =? 8 then Throw (TypeError "view[fn] is not a function")
      else Ok (float_bits (p_bits p) (to_number value))
  | _ =>
      if p_bits p =? 64 then to_bigint value
      else Ok (match to_number value with Some n => n | None => 0 end)
  end.

(** [DataView] has no [getFloat8] / [setFloat8]. *)
Definition no_accessor (p : prim) : bool :=
  match p_kind p with PFloat => p_bits p =? 8 | _ => false end.

(** The value a getter returns for the bytes it read: a bigint for the
    64-bit integer getters, a number otherwise. *)
Definition prim_value (p : prim) (bs : list Z) (le : bool) : jsval :=
  match p_kind p with
  | PFloat => float_value (p_bits p) (decode bs le)
  | PUint => let u := decode bs le in if p_bits p =? 64 then JBig u else JNum u
  | PInt =>
      let v := to_signed (p_bits p) (decode bs le) in
      if p_bits p =? 64 then JBig v else JNum v
  end.

(** [view[get...](offset, littleEndian)], with the bytes it read. *)
Definition prim_read (view : list Z) (offset : Z) (p : prim) (le : bool) : result (list Z * jsval) :=
  if no_accessor p then Throw (TypeError "view[fn] is not a function") else
  let* bs := dv_get view offset (bytes_of p) in Ok (bs, prim_value p bs le).

(** [length != -1 ? instance[name][i] : instance[name]], a string being
    replaced by [value.charCodeAt(0)]. *)
Definition element_value (fields : list (string * jsval)) (name : string) (length : num) (i : nat)
    : result jsval :=
  let* value := if is_scalar length then Ok (get_field fields name)
                else get_index (get_field fields name) i in
  Ok (match value with
      | JStr [] => JNaN
      | JStr (c :: _) => JNum c
      | v => v
      end).

(** One iteration of the element loop of [serialize]. *)
Definition serialize_element (ser : jsval -> result (list Z)) (h : heap) (le : bool)
    (fields : list (string * jsval)) (name : string) (t : mtype) (length base : num)
    (st : list Z * list access) (i : nat) : result (list Z * list access) :=
  let (buffer, log) := st in
  let* sz := sizeof_mtype h t in
  let iOff := num_add base (num_mul sz (Fin (Z.of_nat i))) in
  let* value := element_value fields name length i in
  match t with
  | MStruct _ =>
      let* src := if truthy value then ser value else new_uint8array sz in
      let* buffer' := dv_put buffer (to_int iOff) src in
      Ok (buffer', log)
  | MPrim p =>
      let* raw := prim_raw p value in
      let bytes := encode (Z.to_nat (bytes_of p)) raw le in
      let* buffer' := dv_put buffer (to_int iOff) bytes in
      Ok (buffer', log ++ [mkAccess name (to_int iOff) p le bytes])
  end.

Fixpoint serialize_walk (fuel : nat) (h : heap) (instance : jsval) : result (list Z * list access) :=
  match fuel with
  | O => Throw RangeError
  | S fuel' =>
      match instance with
      | JInst c fields =>
          let* m := class_meta h c in
          let le := negb (o_bigEndian (md_options m)) in
          let* size := sizeof_instance h c fields in
          let* buffer := new_uint8array size in
          let* offsets := if md_isDynamic m then
                            let* o := dynamicOffsets h m fields in Ok (Some o)
                          else Ok None in
          fold_result (fun st '(name, mem) =>
              let* length := memberLength fields name (m_length mem) in
              let base := match offsets with
                          | Some o => match assoc name o with Some b => b | None => NaN end
                          | None => staticOffset mem
                          end in
              fold_result
                (serialize_element (fun v => let* r := serialize_walk fuel' h v in Ok (fst r))
                   h le fields name (m_type mem) length base)
                (indices length) st)
            (md_members m) (buffer, [])
      | _ => Throw (TypeError "is not a struct instance")
      end
  end.

(** One iteration of the element loop of [deserialize]; the instance is
    [JInst c fields] and [object], [key] are as in the source. *)
Definition deserialize_element (des : jsval -> list Z -> result jsval) (h : heap) (le : bool)
    (c : nat) (buffer : list Z) (name : string) (t : mtype) (length : num)
    (st : list (string * jsval) * list access) (i : nat)
    : result (list (string * jsval) * list access) :=
  let (fields, log) := st in
  let* sz := sizeof_mtype h t in
  let* base := offsetof_instance h c fields name in
  let iOff := num_add base (num_mul sz (Fin (Z.of_nat i))) in
  let cur := get_field fields name in
  match cur with
  | JStr s =>
      let* bs := dv_get buffer (to_int iOff) 1 in
      let b := decode bs true in
      Ok (map_set fields name (JStr (firstn i s ++ [b] ++ skipn (S i) s)),
          log ++ [mkAccess name (to_int iOff) (mkPrim PUint 8) true bs])
  | _ =>
      match t with
      | MStruct _ =>
          let* target := if is_scalar length then Ok cur else get_index cur i in
          match target with
          | JUndef | JNull => Ok (fields, log)
          | _ =>
              let* target' := des target (subarray buffer (to_int iOff) (to_int (num_add iOff sz))) in
              if is_scalar length then Ok (map_set fields name target', log) else
              let* cur' := assign_index cur i target' in
              Ok (map_set fields name cur', log)
          end
      | MPrim p =>
          let* (bs, value) := prim_read buffer (to_int iOff) p le in
          let log' := log ++ [mkAccess name (to_int iOff) p le bs] in
          if is_scalar length then Ok (map_set fields name value, log') else
          if truthy cur then
            let* cur' := assign_index cur i value in
            Ok (map_set fields name cur', log')
          else Ok (fields, log')
      end
  end.

Fixpoint deserialize_walk (fuel : nat) (h : heap) (instance : jsval) (buffer : list Z)
    : result (jsval * list access) :=
  match fuel with
  | O => Throw RangeError
  | S fuel' =>
      match instance with
      | JInst c fields0 =>
          let* m := class_meta h c in
          let le := negb (o_bigEndian (md_options m)) in
          let* (fields, log) :=
            fold_result (fun st '(name, mem) =>
                let* length := memberLength (fst st) name (m_length mem) in
                let* _ := if md_isDynamic m then dynamicOffsets h m (fst st) else Ok [] in
                fold_result
                  (deserialize_element
                     (fun v b => let* r := deserialize_walk fuel' h v b in Ok (fst r))
                     h le c buffer name (m_type mem) length)
                  (indices length) st)
              (md_members m) (fields0, []) in
          Ok (JInst c fields, log)
      | _ => Throw (TypeError "is not a struct instance")
      end
  end.

(** The nesting depth of a value bounds the recursion. *)
Fixpoint depth (v : jsval) : nat :=
  match v with
  | JArr items => S (fold_right (fun x acc => Nat.max (depth x) acc) O items)
  | JInst _ fields => S (fold_right (fun x acc => Nat.max (depth (snd x)) acc) O fields)
  | _ => O
  end.

Definition serialize (h : heap) (instance : jsval) : result (list Z) :=
  let* r := serialize_walk (S (depth instance)) h instance in Ok (fst r).

Definition deserialize (h : heap) (instance : jsval) (buffer : list Z) : result jsval :=
  let* r := deserialize_walk (S (depth instance)) h instance buffer in Ok (fst r).

End Walks.

(* ------------------------------------------------------------------ *)
(** ** Declarations used as concrete inputs *)

(** The records below have no float members, so the float codec is never
    called on them; these two fill the parameters of the walks. *)
Definition no_float_bits : Z -> option Z -> Z := fun _ _ => 0.
Definition no_float_value : Z -> Z -> jsval := fun _ _ => JNaN.

(** [@struct() class B { @member(uint8) a; @member(uint16) b; }] and
    [@struct() class D extends B { @member(uint32) c; }]. *)
Definition inherit_example : result (heap * nat * nat) :=
  let* (h1, B) := define_class [] None default_options
                    [mkInit "a" (TName "uint8") None; mkInit "b" (TName "uint16") None] in
  let* (h2, D) := define_class h1 (Some B) default_options
                    [mkInit "c" (TName "uint32") None] in
  Ok (h2, B, D).

(** [@struct({ isUnion: true, align: 4 }) class U { @member(uint8) a; @member(uint16) b; }] *)
Definition aligned_union_example : result (heap * nat) :=
  define_class [] None (mkOptions (Some 4) false true)
    [mkInit "a" (TName "uint8") None; mkInit "b" (TName "uint16") None].

(** [@struct() class A { @member(uint8, 'nope') arr; }]: counted by a name
    that is not a member. *)
Definition bad_count_example : result (heap * nat) :=
  define_class [] None default_options [mkInit "arr" (TName "uint8") (Some (LName "nope"))].



(** [@struct() class Z { @member(uint32, 0) z; @member(uint8) y; }] *)
Definition zero_length_example : result (heap * nat) :=
  define_class [] None default_options
    [mkInit "z" (TName "uint32") (Some (LNum 0)); mkInit "y" (TName "uint8") None].

(** [@struct({ isUnion: true }) class V { @member(uint8) n; @member(uint8, 'n') arr; }] *)
Definition dynamic_union_example : result (heap * nat) :=
  define_class [] None (mkOptions None false true)
    [mkInit "n" (TName "uint8") None; mkInit "arr" (TName "uint8") (Some (LName "n"))].


(* ------------------------------------------------------------------ *)
(** ** Records that survive a round trip *)








Section Roundtrip.

Variable float_bits : Z -> option Z -> Z.
Variable float_value : Z -> Z -> jsval.




End Roundtrip.










(** ** Example classes of the further properties *)

(** [@struct() class C { @member(uint8) n; @member(uint8, 'n') data; }] *)
Definition counted_example : result (heap * nat) :=
  define_class [] None default_options
    [mkInit "n" (TName "uint8") None; mkInit "data" (TName "uint8") (Some (LName "n"))].

(** [@struct({ align: 4 }) class Q { @member(uint8) a; @member(uint32) b; }] *)
Definition aligned_pair_example : result (heap * nat) :=
  define_class [] None (mkOptions (Some 4) false false)
    [mkInit "a" (TName "uint8") None; mkInit "b" (TName "uint32") None].

(** The heap after the member decorators of a class without a base ran. *)
Definition fresh_heap (h : heap) (items : list MemberInit) : heap :=
  h ++ [HMeta None (Some (List.length h + 1)%nat); HStruct (Some (List.length h + 2)%nat) None;
        HInit items].

(* ================================================================== *)
(** * Properties *)

(** ** Byte-level lemmas *)

Lemma le_bytes_length n x : List.length (le_bytes n x) = n.
Proof. revert x; induction n; intros x; simpl; [reflexivity | now rewrite IHn]. Qed.

Lemma encode_length n x le : List.length (encode n x le) = n.
Proof. destruct le; unfold encode; [|rewrite length_rev]; apply le_bytes_length. Qed.

Lemma le_value_le_bytes n x :
  le_value (le_bytes n x) = Z.land x (Z.ones (8 * Z.of_nat n)).
Proof.
  revert x; induction n as [|n IH]; intros x; cbn [le_bytes le_value].
  - now rewrite Z.land_0_r.
  - rewrite IH. apply Z.bits_inj'; intros i Hi.
    rewrite Z.lor_spec, !Z.land_spec.
    change 255 with (Z.ones 8).
    rewrite (Z.testbit_ones_nonneg 8 i) by lia.
    rewrite (Z.testbit_ones_nonneg (8 * Z.of_nat (S n)) i) by lia.
    destruct (Z.ltb_spec i 8).
    + rewrite Z.shiftl_spec_low by lia.
      replace (i <? 8 * Z.of_nat (S n)) with true by (symmetry; apply Z.ltb_lt; lia).
      now rewrite !andb_true_r, orb_false_r.
    + rewrite Z.shiftl_spec by lia. rewrite Z.land_spec, Z.shiftr_spec by lia.
      rewrite (Z.testbit_ones_nonneg (8 * Z.of_nat n) (i - 8)) by lia.
      replace (i - 8 + 8) with i by lia.
      replace (i <? 8) with false by (symmetry; apply Z.ltb_ge; lia).
      rewrite andb_false_r, orb_false_l.
      f_equal. apply Bool.eq_iff_eq_true; rewrite !Z.ltb_lt; lia.
Qed.

Lemma decode_encode n x le :
  decode (encode n x le) le = Z.land x (Z.ones (8 * Z.of_nat n)).
Proof.
  destruct le; unfold decode, encode; [|rewrite rev_involutive]; apply le_value_le_bytes.
Qed.

Lemma length_put_bytes v o bs :
  (o + List.length bs <= List.length v)%nat -> List.length (put_bytes v o bs) = List.length v.
Proof.
  intros H; unfold put_bytes; rewrite !length_app, length_firstn, length_skipn; lia.
Qed.

Lemma window_put_same v o bs :
  (o + List.length bs <= List.length v)%nat ->
  firstn (List.length bs) (skipn o (put_bytes v o bs)) = bs.
Proof.
  intros H; unfold put_bytes.
  rewrite skipn_app, skipn_all2 by (rewrite length_firstn; lia).
  rewrite length_firstn; replace (o - Nat.min o (List.length v))%nat with 0%nat by lia.
  simpl. rewrite firstn_app, firstn_all, Nat.sub_diag; simpl; apply app_nil_r.
Qed.

Lemma window_put_other v o bs p w :
  (o + List.length bs <= List.length v)%nat ->
  (p + w <= o \/ o + List.length bs <= p)%nat ->
  firstn w (skipn p (put_bytes v o bs)) = firstn w (skipn p v).
Proof.
  intros H [Hd | Hd]; unfold put_bytes.
  - assert (Hw : forall A R : list Z, (p + w <= List.length A)%nat ->
                 firstn w (skipn p (A ++ R)) = firstn w (skipn p A)).
    { intros A R HA. rewrite skipn_app, firstn_app, length_skipn.
      replace (w - (List.length A - p))%nat with 0%nat by lia.
      rewrite firstn_O; apply app_nil_r. }
    rewrite Hw by (rewrite length_firstn; lia).
    symmetry; rewrite <- (firstn_skipn o v) at 1.
    apply Hw; rewrite length_firstn; lia.
  - rewrite app_assoc, skipn_app.
    rewrite length_app, length_firstn.
    rewrite skipn_all2 by (rewrite length_app, length_firstn; lia).
    rewrite skipn_skipn. simpl.
    f_equal; f_equal; lia.
Qed.

Lemma dv_put_ok v o bs v' :
  dv_put v o bs = Ok v' ->
  0 <= o /\ o + Z.of_nat (List.length bs) <= Z.of_nat (List.length v) /\
  v' = put_bytes v (Z.to_nat o) bs.
Proof.
  unfold dv_put, in_bounds; intros H.
  destruct (Z.leb_spec 0 o), (Z.leb_spec (o + Z.of_nat (List.length bs)) (Z.of_nat (List.length v)));
    simpl in H; try discriminate.
  inversion H; subst; auto.
Qed.

Lemma dv_get_put_same v o bs v' :
  dv_put v o bs = Ok v' -> dv_get v' o (Z.of_nat (List.length bs)) = Ok bs.
Proof.
  intros H; apply dv_put_ok in H as (H0 & H1 & ->).
  unfold dv_get, in_bounds.
  rewrite length_put_bytes by lia.
  replace ((0 <=? o) && (o + Z.of_nat (List.length bs) <=? Z.of_nat (List.length v))) with true
    by (symmetry; apply andb_true_intro; split; apply Z.leb_le; lia).
  rewrite Nat2Z.id, window_put_same by lia; reflexivity.
Qed.

Lemma dv_get_put_other v o bs v' p w :
  dv_put v o bs = Ok v' -> 0 <= p -> 0 <= w ->
  p + w <= o \/ o + Z.of_nat (List.length bs) <= p ->
  dv_get v' p w = dv_get v p w.
Proof.
  intros H Hp Hw Hd; apply dv_put_ok in H as (H0 & H1 & ->).
  unfold dv_get, in_bounds.
  rewrite length_put_bytes by lia.
  destruct ((0 <=? p) && (p + w <=? Z.of_nat (List.length v))); [|reflexivity].
  rewrite window_put_other by lia; reflexivity.
Qed.

Lemma to_signed_low64 y :
  - 2 ^ 63 <= y < 2 ^ 63 -> to_signed 64 (Z.land y (Z.ones 64)) = y.
Proof.
  intros Hy. rewrite Z.land_ones by lia. unfold to_signed.
  destruct (Z.leb_spec 0 y).
  - rewrite Z.mod_small by lia. replace (64 - 1) with 63 by lia.
    destruct (Z.ltb_spec y (2 ^ 63)); lia.
  - replace (y mod 2 ^ 64) with (y + 2 ^ 64).
    + replace (64 - 1) with 63 by lia. destruct (Z.ltb_spec (y + 2 ^ 64) (2 ^ 63)); lia.
    + apply Z.mod_unique with (-1); lia.
Qed.

Lemma recombine_halves x :
  Z.lor (Z.shiftl (Z.shiftr x 64) 64) (Z.land x mask64) = x.
Proof.
  unfold mask64. apply Z.bits_inj'; intros i Hi.
  rewrite Z.lor_spec, Z.land_spec, Z.testbit_ones_nonneg by lia.
  destruct (Z.ltb_spec i 64).
  - rewrite Z.shiftl_spec_low by lia. now rewrite andb_true_r.
  - rewrite Z.shiftl_spec, Z.shiftr_spec by lia.
    replace (i - 64 + 64) with i by lia. now rewrite andb_false_r, orb_false_r.
Qed.

(** ** C9: [align] *)

(** C9.  For every non-negative byte count [x] and positive alignment [a]:
    [align x a] is [ceil(x / a) * a], i.e. the least multiple of [a] that is
    at least [x] (a multiple of [a], [x <= align x a < x + a]);
    [align x 1 = x]; [align x a >= x]; and [align] is idempotent. *)
Theorem align_spec (x a : Z) :
  0 <= x -> 0 < a ->
  (align x a mod a = 0 /\ x <= align x a < x + a) /\
  align x 1 = x /\
  x <= align x a /\
  align (align x a) a = align x a.
Proof.
  intros Hx Ha. unfold align.
  pose proof (Z.div_mod (- x) a ltac:(lia)) as Hd.
  pose proof (Z.mod_pos_bound (- x) a Ha) as Hm.
  assert (Hb : x <= - (- x / a) * a < x + a) by nia.
  repeat split; try lia.
  - rewrite Z.mod_mul by lia; reflexivity.
  - rewrite Z.div_1_r; lia.
  - set (q := (- x) / a). replace (- (- q * a)) with (q * a) by ring.
    rewrite Z.div_mul by lia. reflexivity.
Qed.

(** ** C8: the 128-bit codecs *)

(** C8.  [int128] and [uint128] read a value as two 64-bit accesses combined
    by shift-and-or, the endianness flag choosing which half is the high
    one; for every view, offset and flag, reading back a value stored by the
    codec's own [set] yields it, for [-2^127 <= v < 2^127] ([int128]) and
    [0 <= v < 2^128] ([uint128]).  A [set] that throws (offset out of
    range) may have stored the first of its two halves, so the statement is
    about a [set] that succeeded. *)
Theorem int128_uint128_roundtrip (view view' : list Z) (offset : Z) (le : bool) (v : Z) :
  (- 2 ^ 127 <= v < 2 ^ 127 ->
   int128_set view offset le v = (view', Ok tt) -> int128_get view' offset le = Ok v) /\
  (0 <= v < 2 ^ 128 ->
   uint128_set view offset le v = (view', Ok tt) -> uint128_get view' offset le = Ok v).
Proof.
  assert (Hhalves : forall set_hi : list Z -> Z -> Z -> bool -> result (list Z),
    (forall w o y b, set_hi w o y b = dv_put w o (encode 8 y b)) ->
    match setBigUint64 view (offset + (if le then 0 else 8)) (Z.land v mask64) le with
    | Throw e => (view, Throw e)
    | Ok v1 =>
        match set_hi v1 (offset + (if le then 8 else 0)) (Z.shiftr v 64) le with
        | Throw e => (v1, Throw e)
        | Ok v2 => (v2, Ok tt)
        end
    end = (view', Ok tt) ->
    dv_get view' (offset + (if le then 8 else 0)) 8 = Ok (encode 8 (Z.shiftr v 64) le) /\
    dv_get view' (offset + (if le then 0 else 8)) 8 = Ok (encode 8 (Z.land v mask64) le)).
  { intros set_hi Hset H0. unfold setBigUint64 in H0.
    destruct (dv_put view _ _) as [v1|] eqn:E1; [|discriminate].
    rewrite Hset in H0.
    destruct (dv_put v1 _ _) as [v2|] eqn:H; inversion H0; subst v2; clear H0.
    pose proof (dv_put_ok _ _ _ _ E1) as (Ho & _).
    pose proof (dv_put_ok _ _ _ _ H) as (Ho2 & _).
    split.
    - pose proof (dv_get_put_same _ _ _ _ H) as G. now rewrite encode_length in G.
    - rewrite (dv_get_put_other _ _ _ _ _ _ H) by (rewrite ?encode_length; destruct le; lia).
      pose proof (dv_get_put_same _ _ _ _ E1) as G. now rewrite encode_length in G. }
  assert (Hlo : Z.land (Z.land v mask64) (Z.ones 64) = Z.land v mask64).
  { unfold mask64. rewrite <- Z.land_assoc, Z.land_diag; reflexivity. }
  split; intros Hv H.
  - destruct (Hhalves setBigInt64 (fun _ _ _ _ => eq_refl) H) as [Gh Gl].
    unfold int128_get, getBigInt64, getBigUint64. rewrite Gh, Gl; cbn [bind].
    rewrite !decode_encode. change (8 * Z.of_nat 8) with 64.
    rewrite to_signed_low64.
    + rewrite Hlo. f_equal. apply recombine_halves.
    + rewrite Z.shiftr_div_pow2 by lia. split.
      * apply Z.div_le_lower_bound; lia.
      * apply Z.div_lt_upper_bound; lia.
  - destruct (Hhalves setBigUint64 (fun _ _ _ _ => eq_refl) H) as [Gh Gl].
    unfold uint128_get, getBigUint64. rewrite Gh, Gl; cbn [bind].
    rewrite !decode_encode. change (8 * Z.of_nat 8) with 64.
    assert (Hhi : Z.land (Z.shiftr v 64) (Z.ones 64) = Z.shiftr v 64).
    { rewrite Z.land_ones by lia. apply Z.mod_small.
      rewrite Z.shiftr_div_pow2 by lia. split; [apply Z.div_pos; lia|].
      apply Z.div_lt_upper_bound; lia. }
    rewrite Hhi.
    rewrite Hlo. f_equal. apply recombine_halves.
Qed.

Example int128_minus_one :
  int128_get (fst (int128_set (repeat 0 16) 0 true (-1))) 0 true = Ok (-1).
Proof. reflexivity. Qed.

Example uint128_big_endian :
  uint128_get (fst (uint128_set (repeat 0 20) 3 false (2 ^ 100 + 7))) 3 false = Ok (2 ^ 100 + 7).
Proof. vm_compute. reflexivity. Qed.

(** ** Helper lemmas on [align], [map_set] and the layout loop *)

Lemma align_ge x a : 0 < a -> x <= align x a.
Proof.
  intros Ha; unfold align.
  pose proof (Z.mul_div_le (- x) a Ha). nia.
Qed.

Lemma align_mono x y a : 0 < a -> x <= y -> align x a <= align y a.
Proof.
  intros Ha Hxy; unfold align.
  assert (H : (- y) / a <= (- x) / a) by (apply Z.div_le_mono; lia).
  nia.
Qed.

Lemma align_idem x a : 0 < a -> align (align x a) a = align x a.
Proof.
  intros Ha; unfold align.
  replace (- (- ((- x) / a) * a)) with (((- x) / a) * a) by ring.
  rewrite Z.div_mul by lia. ring.
Qed.

Lemma align_zero a : align 0 a = 0.
Proof. unfold align. rewrite Z.opp_0, Zdiv_0_l. ring. Qed.

Lemma align_max x y a : 0 < a -> align (Z.max x y) a = Z.max (align x a) (align y a).
Proof.
  intros Ha. destruct (Z.max_spec x y) as [[H ->] | [H ->]].
  - rewrite Z.max_r; [reflexivity | apply align_mono; lia].
  - rewrite Z.max_l; [reflexivity | apply align_mono; lia].
Qed.

Lemma align_fold_max l x x' a :
  0 < a -> align x a = align x' a ->
  align (fold_left Z.max l x) a = align (fold_left Z.max l x') a.
Proof.
  intros Ha; revert x x'; induction l as [|y l IH]; intros x x' Hx; simpl; [exact Hx|].
  apply IH. rewrite !align_max by exact Ha. congruence.
Qed.

Lemma map_set_Forall {A} (P : string * A -> Prop) m k v :
  Forall P m -> P (k, v) -> Forall P (map_set m k v).
Proof.
  induction m as [|[k' v'] m IH]; simpl; intros Hm Hkv; [constructor; auto|].
  inversion Hm; subst. destruct (String.eqb k k'); constructor; auto.
Qed.

Lemma num_align_idem x a : 0 < a -> num_align (num_align x a) a = num_align x a.
Proof. intros Ha; destruct x; simpl; [now rewrite align_idem | reflexivity]. Qed.

Lemma num_align_max x y a :
  0 < a -> num_align (num_max x y) a = num_max (num_align x a) (num_align y a).
Proof. intros Ha; destruct x, y; simpl; try reflexivity. now rewrite align_max. Qed.

Lemma num_align_fold_max l x x' a :
  0 < a -> num_align x a = num_align x' a ->
  num_align (fold_left num_max l x) a = num_align (fold_left num_max l x') a.
Proof.
  intros Ha; revert x x'; induction l as [|y l IH]; intros x x' Hx; simpl; [exact Hx|].
  apply IH. rewrite !num_align_max by exact Ha. congruence.
Qed.

Lemma union_loop h o inits s d mem m :
  o_isUnion o = true -> 0 < alignment o -> num_align s (alignment o) = s ->
  Forall (fun nm => staticOffset (snd nm) = Fin 0) mem ->
  layout_loop h o inits s d mem = Ok m ->
  Forall (fun nm => staticOffset (snd nm) = Fin 0) (md_members m) /\
  exists sizes, Forall2 (fun mi sz => memberSize h mi = Ok sz) inits sizes /\
    md_staticSize m = num_align (fold_left num_max sizes s) (alignment o).
Proof.
  intros Hu Ha. revert s d mem.
  induction inits as [|mi rest IH]; intros s d mem Hs Hmem Hl; cbn [layout_loop] in Hl.
  - injection Hl as <-. split; [exact Hmem|]. exists []. split; [constructor|]. simpl. now rewrite Hs.
  - destruct (member_type h (mi_type mi)) as [t|e] eqn:Ht; cbn [bind] in Hl; [|discriminate].
    destruct (memberSize h mi) as [sz|e] eqn:Hsz; cbn [bind] in Hl; [|discriminate].
    rewrite Hu in Hl.
    apply IH in Hl as [Hoff [sizes [Hf Hst]]].
    + split; [exact Hoff|]. exists (sz :: sizes). split; [constructor; assumption|].
      rewrite Hst. cbn [fold_left]. apply num_align_fold_max; [exact Ha|].
      apply num_align_idem; exact Ha.
    + apply num_align_idem; exact Ha.
    + apply map_set_Forall; [exact Hmem | reflexivity].
Qed.

(** A member type that [member] accepts has a size: [sizeof] of the
    declared type is that of the recorded type. *)
Lemma member_type_size h t mt :
  member_type h t = Ok mt -> exists sz, sizeof_type h t = Ok sz /\ sizeof_mtype h mt = Ok sz.
Proof.
  destruct t as [s|c|]; cbn [member_type sizeof_type]; [| |discriminate].
  - destruct (isValid s); [|discriminate].
    destruct (regex_match (normalize s)); [|discriminate].
    intros H; injection H as <-. eexists; split; reflexivity.
  - unfold isStatic. intros H. cbn [sizeof_mtype].
    destruct (get_struct h c) as [st|] eqn:Eg; [|discriminate].
    injection H as <-. cbn [sizeof_mtype]. unfold sizeof_class. rewrite Eg.
    destruct (nth_error h st) as [[| ? [m|] |]|]; eexists; split; reflexivity.
Qed.

Lemma member_size_ok h mi mt :
  member_type h (mi_type mi) = Ok mt -> is_ok (memberSize h mi) = true.
Proof.
  intros Ht. destruct (member_type_size _ _ _ Ht) as (sz & Hs & _).
  unfold memberSize. destruct (mi_length mi) as [[n|k]|]; rewrite ?Hs; reflexivity.
Qed.

Lemma layout_loop_total h o inits s d mem :
  Forall (fun mi => is_ok (member_type h (mi_type mi)) = true) inits ->
  exists m, layout_loop h o inits s d mem = Ok m /\
    md_isDynamic m = d || existsb (fun mi => is_counted (mi_length mi)) inits.
Proof.
  revert s d mem.
  induction inits as [|mi rest IH]; intros s d mem Hok; cbn [layout_loop].
  - eexists; split; [reflexivity|]. simpl. now rewrite orb_false_r.
  - inversion Hok as [|? ? Ht Hrest]; subst.
    destruct (member_type h (mi_type mi)) as [t|e] eqn:Et; [|discriminate]. cbn [bind].
    pose proof (member_size_ok _ _ _ Et) as Hsz.
    destruct (memberSize h mi) as [sz|e]; [|discriminate]. cbn [bind].
    edestruct IH as [m [Hl Hd]]; [exact Hrest|].
    exists m. split; [exact Hl|]. rewrite Hd. cbn [existsb]. now rewrite orb_assoc.
Qed.

Lemma fold_result_inv {A B} (P : A -> Prop) (f : A -> B -> result A) l a b :
  fold_result f l a = Ok b ->
  (forall a x b, In x l -> f a x = Ok b -> P a -> P b) -> P a -> P b.
Proof.
  revert a; induction l as [|x l IH]; intros a Hf Hstep Ha; cbn [fold_result] in Hf.
  - injection Hf as <-; exact Ha.
  - destruct (f a x) as [a'|e] eqn:Hx; cbn [bind] in Hf; [|discriminate].
    apply (IH a' Hf); [intros; eapply Hstep; [right| |]; eassumption|].
    eapply Hstep; [left; reflexivity | exact Hx | exact Ha].
Qed.


Ltac split_result :=
  repeat match goal with
  | |- bind ?m _ = Ok _ -> _ => let E := fresh "E" in destruct m eqn:E; cbn [bind]; [|discriminate]
  | |- (if ?b then _ else _) = Ok _ -> _ => destruct b
  | |- match ?x with _ => _ end = Ok _ -> _ => destruct x
  end.




(** C2 (the code at a failing input).  With [B] = {a: uint8, b: uint16} and
    [D extends B] adding [c: uint32], [B] lays out [a] at 0 and [b] at 1 with
    static size 3, but [D]'s member list holds only [c], at offset 0, and
    [offsetof(D, 'a')] throws: [D]'s [member] decorator finds [B]'s [struct]
    object through the metadata prototype and [struct] then reads only [D]'s
    own [init] array. *)
Theorem derived_struct_drops_base_members :
  match inherit_example with
  | Ok (h, B, D) =>
      offsetof_static h B "a" = Ok (Fin 0) /\ offsetof_static h B "b" = Ok (Fin 1) /\
      sizeof_static h B = Ok (Fin 3) /\
      offsetof_static h D "c" = Ok (Fin 0) /\ sizeof_static h D = Ok (Fin 4) /\
      offsetof_static h D "a" = Throw (Error "Struct does not have member: a") /\
      offsetof_static h D "b" = Throw (Error "Struct does not have member: b")
  | Throw _ => False
  end.
Proof. vm_compute. repeat constructor. Qed.

(** C3 (counterexample).  A union {a: uint8, b: uint16} declared with
    [align: 4] has both offsets 0 but static size 4, not the largest member
    size 2: the running size is rounded up to the alignment. *)
Lemma union_size_rounded_to_alignment :
  match aligned_union_example with
  | Ok (h, U) =>
      offsetof_static h U "a" = Ok (Fin 0) /\ offsetof_static h U "b" = Ok (Fin 0) /\
      sizeof_type h (TName "uint8") = Ok (Fin 1) /\ sizeof_type h (TName "uint16") = Ok (Fin 2) /\
      sizeof_static h U = Ok (Fin 4)
  | Throw _ => False
  end.
Proof. vm_compute. repeat constructor. Qed.

(** C4 (counterexample).  Declaring a member counted by ["nope"], which is
    no member of the record, succeeds and marks the record dynamic; the
    error only comes when an instance is serialized. *)
Lemma unknown_count_name_accepted :
  match bad_count_example with
  | Ok (h, A) =>
      (let* m := class_meta h A in Ok (md_isDynamic m)) = Ok true /\
      serialize no_float_bits h (JInst A [("arr", JArr [])]) =
        Throw (Error (String.append "Can not use "
          (String.append dquote (String.append "nope" (String.append dquote " to count arr")))))
  | Throw _ => False
  end.
Proof. vm_compute. repeat constructor. Qed.


(** C7 (the code at a failing input).  A [uint32] member of fixed length 0
    takes 4 bytes of the static layout ([length || 1]), so the next member
    sits at offset 4 and the buffer has 5 bytes, while the element loop of
    [serialize] and [dynamicOffsets] give that member 0 elements and 0
    bytes. *)
Theorem zero_length_member_size :
  match zero_length_example with
  | Ok (h, Zc) =>
      sizeof_static h Zc = Ok (Fin 5) /\ offsetof_static h Zc "y" = Ok (Fin 4) /\
      memberLength [] "z" (Some (LNum 0)) = Ok (Fin 0) /\
      (let* m := class_meta h Zc in dynamicOffsets h m [("z", JArr []); ("y", JNum 9)])
        = Ok [("z", Fin 0); ("y", Fin 0)] /\
      serialize no_float_bits h (JInst Zc [("z", JArr []); ("y", JNum 9)]) = Ok [0; 0; 0; 0; 9]
  | Throw _ => False
  end.
Proof. vm_compute. repeat constructor. Qed.

(** C10 (the code at a failing input).  For the dynamic union
    {n: uint8, arr: uint8[n]} the declared offsets are 0, but serializing
    [{n: 1, arr: [7]}] throws (the size computation passes the arguments of
    [_memberLength] swapped), and when [arr] holds a number so that the size
    computes, [dynamicOffsets] places [arr] at offset 1 and the element is
    written there, after [n], not over it. *)
Theorem dynamic_union_serialize :
  match dynamic_union_example with
  | Ok (h, V) =>
      offsetof_static h V "n" = Ok (Fin 0) /\ offsetof_static h V "arr" = Ok (Fin 0) /\
      serialize no_float_bits h (JInst V [("n", JNum 1); ("arr", JArr [JNum 7])]) =
        Throw (Error (String.append "Can not use "
          (String.append dquote (String.append "n" (String.append dquote " to count arr"))))) /\
      (let* m := class_meta h V in dynamicOffsets h m [("n", JNum 1); ("arr", JNum 1)])
        = Ok [("n", Fin 0); ("arr", Fin 1)] /\
      serialize no_float_bits h (JInst V [("n", JNum 1); ("arr", JNum 1)]) = Ok [1; 0]
  | Throw _ => False
  end.
Proof. vm_compute. repeat constructor. Qed.


(** C3 (amended).  In a union declared with the default alignment or a
    positive one [a], every member's recorded offset is 0 and the static
    size is [align(max(0, size_1, ..., size_n), a)], where [size_k] is the
    byte size the declaration computes for member [k] ([NaN] for a member
    whose class is not finished, and then the static size is [NaN]). *)
Theorem union_layout h o inits m :
  o_isUnion o = true -> 0 < alignment o -> layout h o inits = Ok m ->
  Forall (fun nm => staticOffset (snd nm) = Fin 0) (md_members m) /\
  exists sizes, Forall2 (fun mi sz => memberSize h mi = Ok sz) inits sizes /\
    md_staticSize m = num_align (fold_left num_max sizes (Fin 0)) (alignment o).
Proof.
  intros Hu Ha Hl. eapply union_loop; [exact Hu | exact Ha | | constructor | exact Hl].
  cbn [num_align]. now rewrite align_zero.
Qed.

(** Witness of C3: the union {a: uint32, b: uint8[4]} with the default
    alignment has static size 4 = max(4, 4). *)
Lemma union_layout_witness :
  exists m,
    layout [] (mkOptions None false true)
      [mkInit "a" (TName "uint32") None; mkInit "b" (TName "uint8") (Some (LNum 4))] = Ok m /\
    md_staticSize m = Fin 4 /\
    (Forall (fun nm => staticOffset (snd nm) = Fin 0) (md_members m) /\
     exists sizes,
       Forall2 (fun mi sz => memberSize [] mi = Ok sz)
         [mkInit "a" (TName "uint32") None; mkInit "b" (TName "uint8") (Some (LNum 4))] sizes /\
       md_staticSize m
       = num_align (fold_left num_max sizes (Fin 0)) (alignment (mkOptions None false true))).
Proof.
  eexists. split; [vm_compute; reflexivity|]. split; [reflexivity|].
  apply (union_layout [] (mkOptions None false true)); [reflexivity | vm_compute; reflexivity |].
  vm_compute; reflexivity.
Defined.

(** C4 (amended).  Declaring a record never looks at the names given as
    lengths: as soon as every member has a valid type (a primitive type
    name, or a class with [struct] metadata), the layout succeeds whatever
    the counting names are, and the record is dynamic exactly when some
    member is counted.  The name is checked when a length is resolved on an
    instance ([_memberLength]): it gives the number held by the counting
    property ([NaN] included), and throws an [Error] when that property is
    missing or holds something other than a number. *)
Theorem count_names_checked_at_use h o inits :
  Forall (fun mi => is_ok (member_type h (mi_type mi)) = true) inits ->
  (exists m, layout h o inits = Ok m /\
     md_isDynamic m = existsb (fun mi => is_counted (mi_length mi)) inits) /\
  (forall fields name k,
     match assoc k fields with
     | Some (JNum n) => memberLength fields name (Some (LName k)) = Ok (Fin n)
     | Some JNaN => memberLength fields name (Some (LName k)) = Ok NaN
     | _ => exists msg, memberLength fields name (Some (LName k)) = Throw (Error msg)
     end).
Proof.
  intros Hok. split.
  - apply layout_loop_total; exact Hok.
  - intros fields name k. cbn [memberLength].
    destruct (assoc k fields) as [v|]; [destruct v|];
      try (eexists; reflexivity); try reflexivity.
    destruct (existsb (String.eqb k) inherited_names); eexists; reflexivity.
Qed.

(** Witness of C4: a member counted by a name that is no member. *)
Lemma count_names_checked_at_use_witness :
  Forall (fun mi => is_ok (member_type [] (mi_type mi)) = true)
    [mkInit "arr" (TName "uint8") (Some (LName "nope"))] /\
  ((exists m, layout [] default_options [mkInit "arr" (TName "uint8") (Some (LName "nope"))] = Ok m /\
      md_isDynamic m = existsb (fun mi => is_counted (mi_length mi))
                         [mkInit "arr" (TName "uint8") (Some (LName "nope"))]) /\
   (forall fields name k,
      match assoc k fields with
      | Some (JNum n) => memberLength fields name (Some (LName k)) = Ok (Fin n)
      | Some JNaN => memberLength fields name (Some (LName k)) = Ok NaN
      | _ => exists msg, memberLength fields name (Some (LName k)) = Throw (Error msg)
      end)).
Proof.
  assert (H : Forall (fun mi => is_ok (member_type [] (mi_type mi)) = true)
                [mkInit "arr" (TName "uint8") (Some (LName "nope"))])
    by (repeat constructor).
  split; [exact H|]. exact (count_names_checked_at_use [] default_options _ H).
Defined.

(** Witness of C9 at [x = 5], [a = 4]. *)
Lemma align_spec_witness :
  0 <= 5 /\ 0 < 4 /\
  ((align 5 4 mod 4 = 0 /\ 5 <= align 5 4 < 5 + 4) /\ align 5 1 = 5 /\
   5 <= align 5 4 /\ align (align 5 4) 4 = align 5 4).
Proof. split; [lia|]. split; [lia|]. apply (align_spec 5 4); lia. Defined.

(** Witness of C8: [-1] stored as an [int128] at offset 0 of 16 zero bytes. *)
Lemma int128_uint128_roundtrip_witness :
  int128_set (repeat 0 16) 0 true (-1) = (repeat 255 16, Ok tt) /\
  int128_get (repeat 255 16) 0 true = Ok (-1).
Proof.
  split; [vm_compute; reflexivity|].
  apply (proj1 (int128_uint128_roundtrip (repeat 0 16) (repeat 255 16) 0 true (-1)));
    [lia | vm_compute; reflexivity].
Defined.






(* ------------------------------------------------------------------ *)
(** ** The round trip of [serialize] and [deserialize] *)
(* ------------------------------------------------------------------ *)
(** ** Round trip of records *)

Lemma map_set_fresh {A} (l : list (string * A)) k v :
  ~ In k (map fst l) -> map_set l k v = l ++ [(k, v)].
Proof.
  induction l as [|[k' v'] l IH]; simpl; intros Hn; [reflexivity|].
  destruct (String.eqb_spec k k') as [->|Hne]; [exfalso; apply Hn; left; reflexivity|].
  f_equal. apply IH. intros H; apply Hn; right; exact H.
Qed.








Lemma get_field_map_set F k v k' :
  get_field (map_set F k v) k' = if String.eqb k' k then v else get_field F k'.
Proof.
  unfold get_field. induction F as [|[k0 v0] F IH]; cbn.
  - destruct (String.eqb k' k); reflexivity.
  - destruct (String.eqb_spec k k0) as [->|Hne]; cbn.
    + destruct (String.eqb k' k0); reflexivity.
    + destruct (String.eqb_spec k' k0) as [->|Hne']; [|exact IH].
      apply String.eqb_neq in Hne. rewrite String.eqb_sym, Hne. reflexivity.
Qed.


Lemma get_field_map_set_other F k v k' : k' <> k -> get_field (map_set F k v) k' = get_field F k'.
Proof. intros H. rewrite get_field_map_set. apply String.eqb_neq in H. rewrite H. reflexivity. Qed.






Lemma firstn_app_len {T} (A B : list T) j : List.length A = j -> firstn j (A ++ B) = A.
Proof. intros <-. induction A as [|a A IH]; cbn; [reflexivity | now rewrite IH]. Qed.

Lemma skipn_app_len {T} (A B : list T) j : List.length A = j -> skipn j (A ++ B) = B.
Proof. intros <-. induction A as [|a A IH]; cbn; [reflexivity | exact IH]. Qed.












Lemma sizeof_instance_static h c m fs :
  class_meta h c = Ok m ->
  Forall (fun nm => forall k, m_length (snd nm) <> Some (LName k)) (md_members m) ->
  sizeof_instance h c fs = Ok (md_staticSize m).
Proof.
  intros Hc Hf. unfold sizeof_instance. rewrite Hc; cbn [bind].
  generalize (md_staticSize m). induction Hf as [|[n mem] rest Hx Hf IH]; intros size; [reflexivity|].
  cbn [fold_result]. cbn [snd] in Hx.
  destruct (m_length mem) as [[k|k]|]; [| exfalso; apply (Hx k); reflexivity |]; cbn [bind]; apply IH.
Qed.
























(* ================================================================== *)
(** ** Further properties of the code *)

(** *** Alignment of the layout *)

Lemma align_mod x a : 0 < a -> align x a mod a = 0.
Proof. intros Ha; unfold align; apply Z.mod_mul; lia. Qed.

Lemma num_align_multiple x a : 0 < a -> num_multiple (num_align x a) a.
Proof. intros Ha. destruct x; cbn; [apply align_mod; exact Ha | exact I]. Qed.

Lemma num_le_align x a : 0 < a -> num_le x (num_align x a).
Proof. intros Ha. destruct x; cbn; [apply align_ge; exact Ha | exact I]. Qed.

Lemma layout_loop_aligned h o inits : 0 < alignment o -> forall s d mem m,
  num_multiple s (alignment o) ->
  Forall (fun nm => num_multiple (staticOffset (snd nm)) (alignment o)) mem ->
  layout_loop h o inits s d mem = Ok m ->
  num_multiple (md_staticSize m) (alignment o) /\
  Forall (fun nm => num_multiple (staticOffset (snd nm)) (alignment o)) (md_members m).
Proof.
  intros Ha; induction inits as [|mi rest IH]; intros s d mem m Hs Hmem Hl; cbn [layout_loop] in Hl.
  - injection Hl as <-. split; assumption.
  - destruct (member_type h (mi_type mi)) as [t|e]; cbn [bind] in Hl; [|discriminate].
    destruct (memberSize h mi) as [sz|e]; cbn [bind] in Hl; [|discriminate].
    eapply IH; [apply num_align_multiple; exact Ha | | exact Hl].
    apply map_set_Forall; [exact Hmem|]. cbn [snd staticOffset].
    destruct (o_isUnion o); [change (0 mod alignment o = 0); apply Z.mod_0_l; lia | exact Hs].
Qed.

(** [@struct] layout: with a positive alignment, the offset of every member and the
    static size of the struct are multiples of the alignment ([align] at each member and
    at the end of [struct]), or [NaN], which a member whose class has not finished its
    [@struct] brings into the sums. *)
Theorem layout_offsets_aligned h o inits m :
  0 < alignment o -> layout h o inits = Ok m ->
  num_multiple (md_staticSize m) (alignment o) /\
  Forall (fun nm => num_multiple (staticOffset (snd nm)) (alignment o)) (md_members m).
Proof.
  intros Ha Hl. unfold layout in Hl.
  apply (layout_loop_aligned h o inits Ha (Fin 0) false [] m); [change (0 mod alignment o = 0); apply Z.mod_0_l; lia | constructor | exact Hl].
Qed.

Lemma layout_offsets_aligned_witness :
  0 < alignment (mkOptions (Some 4) false false) /\
  layout [] (mkOptions (Some 4) false false)
    [mkInit "a" (TName "uint8") None; mkInit "b" (TName "uint16") (Some (LNum 3))]
  = Ok (mkMeta (mkOptions (Some 4) false false)
          [("a", mkMember (Fin 0) (MPrim (mkPrim PUint 8)) None);
           ("b", mkMember (Fin 4) (MPrim (mkPrim PUint 16)) (Some (LNum 3)))] (Fin 12) false) /\
  (num_multiple (Fin 12) 4 /\ Forall (fun nm => num_multiple (staticOffset (snd nm)) 4)
      [("a", mkMember (Fin 0) (MPrim (mkPrim PUint 8)) None);
       ("b", mkMember (Fin 4) (MPrim (mkPrim PUint 16)) (Some (LNum 3)))]).
Proof.
  assert (Ha : 0 < alignment (mkOptions (Some 4) false false)) by (vm_compute; reflexivity).
  assert (Hl : layout [] (mkOptions (Some 4) false false)
    [mkInit "a" (TName "uint8") None; mkInit "b" (TName "uint16") (Some (LNum 3))]
  = Ok (mkMeta (mkOptions (Some 4) false false)
          [("a", mkMember (Fin 0) (MPrim (mkPrim PUint 8)) None);
           ("b", mkMember (Fin 4) (MPrim (mkPrim PUint 16)) (Some (LNum 3)))] (Fin 12) false))
    by (vm_compute; reflexivity).
  exact (conj Ha (conj Hl (layout_offsets_aligned _ _ _ _ Ha Hl))).
Defined.

(** *** Member order of the layout *)

Lemma layout_loop_order h o inits : o_isUnion o = false -> 0 < alignment o ->
  forall s d mem m,
  NoDup (map fst mem ++ map mi_name inits) ->
  layout_loop h o inits s d mem = Ok m ->
  map fst (md_members m) = map fst mem ++ map mi_name inits /\
  (forall k, (k < List.length mem)%nat -> nth_error (md_members m) k = nth_error mem k) /\
  match nth_error (md_members m) (List.length mem) with
  | Some (_, M) => staticOffset M = s
  | None => md_staticSize m = s
  end /\
  (forall i mi, nth_error inits i = Some mi ->
     exists off t sz,
       nth_error (md_members m) (List.length mem + i) = Some (mi_name mi, mkMember off t (mi_length mi)) /\
       member_type h (mi_type mi) = Ok t /\ memberSize h mi = Ok sz /\
       num_le (num_add off sz) (match nth_error (md_members m) (S (List.length mem + i)) with
                                | Some (_, M) => staticOffset M
                                | None => md_staticSize m
                                end)).
Proof.
  intros Hu Ha. induction inits as [|mi rest IH]; intros s d mem m Hnd Hl; cbn [layout_loop] in Hl.
  - injection Hl as <-. cbn [md_members md_staticSize]. rewrite app_nil_r.
    split; [reflexivity|]. split; [reflexivity|].
    split; [replace (nth_error mem (List.length mem)) with (@None (string * Member))
              by (symmetry; apply nth_error_None; lia); reflexivity|].
    intros i mi Hi. destruct i; discriminate.
  - destruct (member_type h (mi_type mi)) as [t|e] eqn:Ht; cbn [bind] in Hl; [|discriminate].
    destruct (memberSize h mi) as [size|e] eqn:Hs; cbn [bind] in Hl; [|discriminate].
    rewrite Hu in Hl.
    rewrite map_set_fresh in Hl.
    2:{ intros Hin. rewrite map_cons in Hnd. apply NoDup_remove_2 in Hnd. apply Hnd.
        apply in_or_app; left; exact Hin. }
    apply IH in Hl as (Hn & Hpre & Hfirst & Hall).
    2:{ rewrite map_app, <- app_assoc. exact Hnd. }
    rewrite length_app in Hpre, Hfirst, Hall. cbn [List.length] in Hpre, Hfirst, Hall.
    assert (Hme : nth_error (md_members m) (List.length mem)
                  = Some (mi_name mi, mkMember s t (mi_length mi))).
    { rewrite Hpre by lia. rewrite nth_error_app2 by lia. rewrite Nat.sub_diag. reflexivity. }
    split; [rewrite Hn, map_app, <- app_assoc; reflexivity|].
    split.
    { intros k Hk. rewrite Hpre by lia. apply nth_error_app1; exact Hk. }
    split; [rewrite Hme; reflexivity|].
    intros [|i] mi' Hi; cbn [nth_error] in Hi.
    + injection Hi as <-. exists s, t, size.
      rewrite Nat.add_0_r. split; [exact Hme|]. split; [exact Ht|]. split; [exact Hs|].
      replace (S (List.length mem)) with (List.length mem + 1)%nat by lia.
      destruct (nth_error (md_members m) (List.length mem + 1)) as [[? M]|];
        rewrite Hfirst; apply num_le_align; exact Ha.
    + destruct (Hall i mi' Hi) as (off & t' & sz & H1 & H2 & H3 & H4).
      exists off, t', sz. replace (List.length mem + S i)%nat with (List.length mem + 1 + i)%nat by lia.
      split; [exact H1|]. split; [exact H2|]. split; [exact H3|]. exact H4.
Qed.

(** [@struct] layout of a non-union struct with distinct member names: the members are
    laid out in declaration order, the first at offset 0, each with its resolved type and
    its declared length, and a member's bytes [off, off + size) end at or before the
    offset of the next member, or at the static size for the last one: members never
    overlap.  Offsets and sizes are [NaN] from a member whose class has not finished
    its [@struct] on, [NaN] being above every integer in [num_le]. *)
Theorem layout_members_in_order h o inits m :
  o_isUnion o = false -> 0 < alignment o -> NoDup (map mi_name inits) ->
  layout h o inits = Ok m ->
  map fst (md_members m) = map mi_name inits /\
  (forall i mi, nth_error inits i = Some mi ->
     exists off t sz,
       nth_error (md_members m) i = Some (mi_name mi, mkMember off t (mi_length mi)) /\
       member_type h (mi_type mi) = Ok t /\ memberSize h mi = Ok sz /\
       (i = 0%nat -> off = Fin 0) /\
       num_le (num_add off sz) (match nth_error (md_members m) (S i) with
                                | Some (_, M) => staticOffset M
                                | None => md_staticSize m
                                end)).
Proof.
  intros Hu Ha Hnd Hl. unfold layout in Hl.
  apply (layout_loop_order h o inits Hu Ha (Fin 0) false [] m Hnd) in Hl as (Hn & _ & Hfirst & Hall).
  split; [exact Hn|].
  intros i mi Hi. destruct (Hall i mi Hi) as (off & t & sz & H1 & H2 & H3 & H4).
  exists off, t, sz. cbn [List.length Nat.add] in H1, H4.
  split; [exact H1|]. split; [exact H2|]. split; [exact H3|]. split; [|exact H4].
  intros ->. cbn [List.length] in Hfirst. rewrite H1 in Hfirst. exact Hfirst.
Qed.

Lemma layout_members_in_order_witness :
  exists m, layout [] default_options
    [mkInit "a" (TName "uint8") None; mkInit "b" (TName "uint32") None] = Ok m /\
  map fst (md_members m) = ["a"; "b"].
Proof.
  assert (Hu : o_isUnion default_options = false) by reflexivity.
  assert (Ha : 0 < alignment default_options) by (vm_compute; reflexivity).
  assert (Hnd : NoDup (map mi_name [mkInit "a" (TName "uint8") None; mkInit "b" (TName "uint32") None])).
  { cbn. apply NoDup_cons; [intros [H|[]]; discriminate | apply NoDup_cons; [intros []|apply NoDup_nil]]. }
  match goal with |- exists m, ?L = Ok m /\ _ =>
    let v := eval vm_compute in L in
    match v with Ok ?m0 =>
      assert (Hl : L = Ok m0) by (vm_compute; reflexivity);
      exists m0; split; [exact Hl | exact (proj1 (layout_members_in_order _ _ _ _ Hu Ha Hnd Hl))]
    end
  end.
Defined.

(** *** Primitive type names *)

Lemma lower_ascii_idem c : lower_ascii (lower_ascii c) = lower_ascii c.
Proof.
  destruct c as [b0 b1 b2 b3 b4 b5 b6 b7].
  destruct b0, b1, b2, b3, b4, b5, b6, b7; vm_compute; reflexivity.
Qed.

Lemma lowercase_idem s : lowercase (lowercase s) = lowercase s.
Proof. induction s as [|c s IH]; simpl; [reflexivity|]. now rewrite lower_ascii_idem, IH. Qed.

Lemma assoc_prim_table k p :
  assoc k prim_table = Some p -> In (p_bits p) [8; 16; 32; 64].
Proof.
  unfold prim_table; cbn [assoc].
  repeat match goal with |- (if String.eqb ?a ?b then _ else _) = _ -> _ =>
    destruct (String.eqb a b); [intros H; injection H as <-; cbn; tauto|] end.
  discriminate.
Qed.

(** A type name accepted by [isValid] is a primitive type: [_memberTypeName] resolves it
    to a primitive and its size is 1, 2, 4 or 8 bytes. *)
Theorem valid_name_is_primitive h s :
  isValid s = true ->
  exists p, member_type h (TName s) = Ok (MPrim p) /\
            sizeof_type h (TName s) = Ok (Fin (p_bits p / 8)) /\
            In (p_bits p / 8) [1; 2; 4; 8].
Proof.
  intros Hv. cbn [member_type sizeof_type]. rewrite Hv.
  assert (Hp : exists p, regex_match (normalize s) = Some p).
  { unfold isValid in Hv. unfold normalize.
    destruct (String.eqb s "char"); [eexists; reflexivity|].
    cbn [orb] in Hv. unfold regex_match in *. rewrite lowercase_idem.
    destruct (assoc (lowercase s) prim_table); [eexists; reflexivity | discriminate]. }
  destruct Hp as [p Hp]. rewrite Hp. exists p. split; [reflexivity|]. split; [reflexivity|].
  apply assoc_prim_table in Hp. cbn in Hp |- *.
  destruct Hp as [<-|[<-|[<-|[<-|[]]]]]; cbn; tauto.
Qed.

Lemma valid_name_is_primitive_witness :
  isValid "UInt16" = true /\
  exists p, member_type [] (TName "UInt16") = Ok (MPrim p) /\
            sizeof_type [] (TName "UInt16") = Ok (Fin (p_bits p / 8)) /\
            In (p_bits p / 8) [1; 2; 4; 8].
Proof.
  assert (Hv : isValid "UInt16" = true) by (vm_compute; reflexivity).
  exact (conj Hv (valid_name_is_primitive [] "UInt16" Hv)).
Defined.

(** *** The 128-bit codecs *)

Lemma le_bytes_split n k x :
  le_bytes (n + k) x = le_bytes n x ++ le_bytes k (Z.shiftr x (8 * Z.of_nat n)).
Proof.
  revert x; induction n as [|n IH]; intros x; cbn [le_bytes Nat.add app].
  - now rewrite Z.shiftr_0_r.
  - rewrite IH, Z.shiftr_shiftr by lia.
    replace (8 + 8 * Z.of_nat n) with (8 * Z.of_nat (S n)) by lia. reflexivity.
Qed.

Lemma le_bytes_land n x m :
  8 * Z.of_nat n <= m -> le_bytes n (Z.land x (Z.ones m)) = le_bytes n x.
Proof.
  revert x m; induction n as [|n IH]; intros x m Hm; cbn [le_bytes]; [reflexivity|].
  f_equal.
  - apply Z.bits_inj'; intros i Hi. rewrite !Z.land_spec. change 255 with (Z.ones 8).
    rewrite !Z.testbit_ones_nonneg by lia.
    destruct (Z.ltb_spec i 8), (Z.ltb_spec i m); try lia; now rewrite ?andb_true_r, ?andb_false_r.
  - rewrite <- (IH (Z.shiftr x 8) (m - 8)) by lia. f_equal.
    apply Z.bits_inj'; intros i Hi.
    rewrite Z.shiftr_spec, !Z.land_spec, Z.shiftr_spec by lia.
    rewrite !Z.testbit_ones_nonneg by lia. f_equal.
    apply Bool.eq_iff_eq_true; rewrite !Z.ltb_lt; lia.
Qed.

Lemma put_bytes_adjacent v o A B :
  (o + List.length A + List.length B <= List.length v)%nat ->
  put_bytes (put_bytes v o A) (o + List.length A) B = put_bytes v o (A ++ B).
Proof.
  intros H. unfold put_bytes.
  assert (Hf : List.length (firstn o v ++ A) = (o + List.length A)%nat)
    by (rewrite length_app, length_firstn; lia).
  rewrite (app_assoc (firstn o v) A).
  rewrite (firstn_app_len _ _ _ Hf).
  replace (o + List.length A + List.length B)%nat with (List.length B + (o + List.length A))%nat by lia.
  rewrite <- (skipn_skipn (List.length B) (o + List.length A) (_ ++ _)).
  rewrite (skipn_app_len _ _ _ Hf), skipn_skipn, length_app.
  rewrite <- !app_assoc. do 4 f_equal. lia.
Qed.

Lemma put_bytes_adjacent_rev v o A B :
  (o + List.length A + List.length B <= List.length v)%nat ->
  put_bytes (put_bytes v (o + List.length A) B) o A = put_bytes v o (A ++ B).
Proof.
  intros H. unfold put_bytes.
  assert (Hf : List.length (firstn (o + List.length A) v) = (o + List.length A)%nat)
    by (rewrite length_firstn; lia).
  rewrite firstn_app, Hf. replace (o - (o + List.length A))%nat with 0%nat by lia.
  rewrite firstn_O, app_nil_r, firstn_firstn. replace (Nat.min o (o + List.length A)) with o by lia.
  rewrite (skipn_app_len _ _ _ Hf), length_app, <- !app_assoc. do 4 f_equal. lia.
Qed.

Lemma in_bounds_true v o w :
  in_bounds v o w = true <-> 0 <= o /\ o + w <= Z.of_nat (List.length v).
Proof. unfold in_bounds. rewrite andb_true_iff, !Z.leb_le. tauto. Qed.

Lemma in_bounds_false v o w :
  in_bounds v o w = false <-> ~ (0 <= o /\ o + w <= Z.of_nat (List.length v)).
Proof. rewrite <- in_bounds_true. destruct (in_bounds v o w); intuition congruence. Qed.

(** The two 64-bit writes of a 128-bit setter, as one 16-byte write. *)
Lemma halves_write (view : list Z) (offset : Z) (le : bool) (value : Z) :
  (let* v1 := dv_put view (offset + (if le then 0 else 8)) (encode 8 (Z.land value mask64) le) in
   dv_put v1 (offset + (if le then 8 else 0)) (encode 8 (Z.shiftr value 64) le))
  = dv_put view offset (encode 16 value le).
Proof.
  assert (Hlo : le_bytes 8 (Z.land value mask64) = le_bytes 8 value)
    by (unfold mask64; apply le_bytes_land; lia).
  assert (Hsp : le_bytes 16 value = le_bytes 8 value ++ le_bytes 8 (Z.shiftr value 64))
    by (apply (le_bytes_split 8 8)).
  unfold dv_put at 1 3. rewrite !encode_length.
  destruct (in_bounds view offset (Z.of_nat 16)) eqn:E16.
  - apply in_bounds_true in E16.
    replace (in_bounds view _ (Z.of_nat 8)) with true
      by (symmetry; apply in_bounds_true; destruct le; lia).
    cbn [bind]. unfold dv_put. rewrite encode_length.
    replace (in_bounds (put_bytes _ _ _) _ _) with true.
    2:{ symmetry; apply in_bounds_true.
        rewrite length_put_bytes by (rewrite encode_length; destruct le; lia). destruct le; lia. }
    f_equal. unfold encode. rewrite Hlo, Hsp. destruct le.
    + replace (Z.to_nat (offset + 8)) with (Z.to_nat offset + List.length (le_bytes 8 value))%nat
        by (rewrite le_bytes_length; lia).
      rewrite Z.add_0_r. apply put_bytes_adjacent. rewrite !le_bytes_length. lia.
    + rewrite rev_app_distr, Z.add_0_r.
      replace (Z.to_nat (offset + 8)) with (Z.to_nat offset + List.length (rev (le_bytes 8 (Z.shiftr value 64))))%nat
        by (rewrite length_rev, le_bytes_length; lia).
      apply put_bytes_adjacent_rev. rewrite !length_rev, !le_bytes_length. lia.
  - apply in_bounds_false in E16.
    destruct (in_bounds view (offset + (if le then 0 else 8)) (Z.of_nat 8)) eqn:E1; [|reflexivity].
    apply in_bounds_true in E1. cbn [bind]. unfold dv_put. rewrite encode_length.
    replace (in_bounds (put_bytes _ _ _) _ _) with false; [reflexivity|].
    symmetry; apply in_bounds_false.
    rewrite length_put_bytes by (rewrite encode_length; destruct le; lia). destruct le; lia.
Qed.

(** The two 64-bit writes of a 128-bit setter with their outcome: in bounds, one
    16-byte write; otherwise a [RangeError], after the first write when its own 8
    bytes are in bounds. *)
Lemma halves_outcome (view : list Z) (offset : Z) (le : bool) (value : Z) :
  match dv_put view (offset + (if le then 0 else 8)) (encode 8 (Z.land value mask64) le) with
  | Throw e => (view, @Throw unit e)
  | Ok v1 =>
      match dv_put v1 (offset + (if le then 8 else 0)) (encode 8 (Z.shiftr value 64) le) with
      | Throw e => (v1, Throw e)
      | Ok v2 => (v2, Ok tt)
      end
  end =
  if in_bounds view offset 16 then (put_bytes view (Z.to_nat offset) (encode 16 value le), Ok tt)
  else (if in_bounds view (offset + (if le then 0 else 8)) 8
        then put_bytes view (Z.to_nat (offset + (if le then 0 else 8)))
               (encode 8 (Z.land value mask64) le)
        else view, Throw RangeError).
Proof.
  pose proof (halves_write view offset le value) as Hw.
  unfold dv_put in Hw |- *. rewrite ?encode_length in Hw. rewrite ?encode_length.
  change (Z.of_nat 8) with 8 in *. change (Z.of_nat 16) with 16 in *.
  destruct (in_bounds view (offset + (if le then 0 else 8)) 8); cbn [bind] in Hw.
  - destruct (in_bounds (put_bytes view _ _) (offset + (if le then 8 else 0)) 8).
    + destruct (in_bounds view offset 16); [injection Hw as ->; reflexivity | discriminate].
    + destruct (in_bounds view offset 16); [discriminate | reflexivity].
  - destruct (in_bounds view offset 16); [discriminate | reflexivity].
Qed.

(** The [int128] and [uint128] setters: when the 16 bytes at [offset] are in bounds,
    the same effect as one 16-byte write of the value reduced modulo 2^128 in the
    requested byte order (the two 64-bit halves land at [offset] and [offset + 8] in the
    order the endianness asks for).  Otherwise they throw a [RangeError], and the low
    half, written first at [offset] (little-endian) or [offset + 8] (big-endian), is
    already in the view when its own 8 bytes are in bounds. *)
Theorem int128_set_one_write (view : list Z) (offset : Z) (le : bool) (value : Z) :
  let first := offset + (if le then 0 else 8) in
  let outcome :=
    if in_bounds view offset 16 then (put_bytes view (Z.to_nat offset) (encode 16 value le), Ok tt)
    else (if in_bounds view first 8
          then put_bytes view (Z.to_nat first) (encode 8 (Z.land value mask64) le)
          else view, Throw RangeError) in
  int128_set view offset le value = outcome /\ uint128_set view offset le value = outcome.
Proof.
  cbv zeta. split.
  - unfold int128_set, setBigUint64, setBigInt64. apply halves_outcome.
  - unfold uint128_set, setBigUint64. apply halves_outcome.
Qed.

Lemma firstn_add {T} n m (l : list T) : firstn (n + m) l = firstn n l ++ firstn m (skipn n l).
Proof.
  revert l; induction n as [|n IH]; intros [|x l]; cbn; try reflexivity.
  - now rewrite firstn_nil.
  - now rewrite IH.
Qed.

Lemma le_value_app A B :
  le_value (A ++ B) = Z.lor (le_value A) (Z.shiftl (le_value B) (8 * Z.of_nat (List.length A))).
Proof.
  induction A as [|b A IH]; cbn [app le_value List.length].
  - now rewrite Z.shiftl_0_r.
  - rewrite IH, Z.shiftl_lor, Z.shiftl_shiftl by lia. rewrite Z.lor_assoc.
    replace (8 * Z.of_nat (S (List.length A))) with (8 * Z.of_nat (List.length A) + 8) by lia.
    reflexivity.
Qed.

(** The 8-byte windows at [offset] and [offset + 8] of a 16-byte window. *)
Lemma dv_get_halves view offset :
  in_bounds view offset 16 = true ->
  let W := skipn (Z.to_nat offset) view in
  dv_get view offset 8 = Ok (firstn 8 W) /\
  dv_get view (offset + 8) 8 = Ok (firstn 8 (skipn 8 W)) /\
  dv_get view offset 16 = Ok (firstn 8 W ++ firstn 8 (skipn 8 W)) /\
  List.length (firstn 8 W) = 8%nat /\ List.length (firstn 8 (skipn 8 W)) = 8%nat.
Proof.
  intros Hb W. apply in_bounds_true in Hb as Hb'.
  unfold dv_get. rewrite Hb.
  replace (in_bounds view offset 8) with true by (symmetry; apply in_bounds_true; lia).
  replace (in_bounds view (offset + 8) 8) with true by (symmetry; apply in_bounds_true; lia).
  split; [reflexivity|]. split.
  - unfold W. rewrite skipn_skipn. do 3 f_equal. lia.
  - split.
    + f_equal. change (Z.to_nat 16) with (8 + 8)%nat. apply firstn_add.
    + unfold W. rewrite !length_firstn, !length_skipn. split; lia.
Qed.

Lemma dv_get_halves_fail view offset (le : bool) :
  in_bounds view offset 16 = false ->
  in_bounds view (offset + (if le then 8 else 0)) 8 = true ->
  in_bounds view (offset + (if le then 0 else 8)) 8 = false.
Proof.
  intros Hb E1. apply in_bounds_false in Hb. apply in_bounds_true in E1.
  apply in_bounds_false. destruct le; lia.
Qed.

(** The [uint128] getter reads the 16 bytes at [offset] as one unsigned number in the
    requested byte order, and fails exactly when those 16 bytes are out of bounds. *)
Theorem uint128_get_one_read (view : list Z) (offset : Z) (le : bool) :
  uint128_get view offset le = let* bs := dv_get view offset 16 in Ok (decode bs le).
Proof.
  unfold uint128_get, getBigUint64.
  destruct (in_bounds view offset 16) eqn:Hb.
  2:{ unfold dv_get. rewrite Hb.
      destruct (in_bounds view (offset + (if le then 8 else 0)) 8) eqn:E1; cbn [bind]; [|reflexivity].
      now rewrite (dv_get_halves_fail view offset le Hb E1). }
  destruct (dv_get_halves view offset Hb) as (G0 & G8 & G16 & Hlen & Hlen8).
  rewrite G16. destruct le; rewrite ?Z.add_0_r, ?G0, ?G8; cbn [bind]; f_equal; unfold decode.
  - rewrite le_value_app, Hlen, Z.lor_comm. reflexivity.
  - rewrite rev_app_distr, le_value_app, length_rev, Hlen8, Z.lor_comm. reflexivity.
Qed.

Lemma lor_shift_add b r k : 0 <= k -> 0 <= b < 2 ^ k -> Z.lor b (Z.shiftl r k) = b + r * 2 ^ k.
Proof.
  intros Hk Hb. rewrite Z.shiftl_mul_pow2 by lia.
  assert (Hd : Z.land b (r * 2 ^ k) = 0).
  { apply Z.bits_inj'; intros i Hi. rewrite Z.land_spec, Z.bits_0.
    destruct (Z.ltb_spec i k).
    - rewrite <- Z.shiftl_mul_pow2 by lia. rewrite Z.shiftl_spec_low by lia. apply andb_false_r.
    - rewrite <- (Z.mod_small b (2 ^ k)) by lia. rewrite Z.mod_pow2_bits_high by lia. reflexivity. }
  rewrite <- Z.lxor_lor by exact Hd. symmetry; apply Z.add_nocarry_lxor; exact Hd.
Qed.

Lemma le_value_range bs :
  Forall (fun b => 0 <= b < 256) bs -> 0 <= le_value bs < 2 ^ (8 * Z.of_nat (List.length bs)).
Proof.
  induction 1 as [|b bs Hb Hbs IH]; cbn [le_value List.length]; [cbn; lia|].
  rewrite lor_shift_add by (cbn; lia).
  replace (8 * Z.of_nat (S (List.length bs))) with (8 + 8 * Z.of_nat (List.length bs)) by lia.
  rewrite Z.pow_add_r by lia. change (2 ^ 8) with 256. nia.
Qed.

Lemma Forall_window {T} (P : T -> Prop) l n m : Forall P l -> Forall P (firstn n (skipn m l)).
Proof.
  rewrite !Forall_forall. intros H x Hx. apply H.
  rewrite <- (firstn_skipn m l). apply in_or_app; right.
  rewrite <- (firstn_skipn n (skipn m l)). apply in_or_app; left; exact Hx.
Qed.

Lemma signed_combine uH uL :
  0 <= uH < 2 ^ 64 -> 0 <= uL < 2 ^ 64 ->
  Z.lor (Z.shiftl (to_signed 64 uH) 64) uL = to_signed 128 (Z.lor uL (Z.shiftl uH 64)).
Proof.
  intros HH HL. rewrite Z.lor_comm, !lor_shift_add by lia.
  unfold to_signed. change (64 - 1) with 63. change (128 - 1) with 127.
  change (2 ^ 127) with (2 ^ 63 * 2 ^ 64). change (2 ^ 128) with (2 ^ 64 * 2 ^ 64).
  destruct (Z.ltb_spec uH (2 ^ 63)), (Z.ltb_spec (uL + uH * 2 ^ 64) (2 ^ 63 * 2 ^ 64)); nia.
Qed.

(** On a view of bytes, the [int128] getter reads the 16 bytes at [offset] as one
    two's-complement 128-bit number in the requested byte order (the signed high half
    shifted left by 64, or-ed with the unsigned low half), and fails exactly when those
    16 bytes are out of bounds. *)
Theorem int128_get_one_read (view : list Z) (offset : Z) (le : bool) :
  Forall (fun b => 0 <= b < 256) view ->
  int128_get view offset le = let* bs := dv_get view offset 16 in Ok (to_signed 128 (decode bs le)).
Proof.
  intros Hv. unfold int128_get, getBigInt64, getBigUint64.
  destruct (in_bounds view offset 16) eqn:Hb.
  2:{ unfold dv_get. rewrite Hb.
      destruct (in_bounds view (offset + (if le then 8 else 0)) 8) eqn:E1; cbn [bind]; [|reflexivity].
      now rewrite (dv_get_halves_fail view offset le Hb E1). }
  destruct (dv_get_halves view offset Hb) as (G0 & G8 & G16 & Hlen & Hlen8).
  set (W := skipn (Z.to_nat offset) view) in *.
  assert (R0 := le_value_range _ (Forall_window _ view 8 (Z.to_nat offset) Hv)).
  assert (R8 := le_value_range (firstn 8 (skipn 8 W))).
  assert (R8' : Forall (fun b => 0 <= b < 256) (firstn 8 (skipn 8 W))).
  { unfold W. rewrite skipn_skipn. apply Forall_window; exact Hv. }
  specialize (R8 R8'). fold W in R0.
  rewrite Hlen in R0. rewrite Hlen8 in R8. change (8 * Z.of_nat 8) with 64 in R0, R8.
  rewrite G16. destruct le; rewrite ?Z.add_0_r, ?G0, ?G8; cbn [bind]; f_equal; unfold decode.
  - rewrite le_value_app, Hlen. apply signed_combine; assumption.
  - rewrite rev_app_distr, le_value_app, length_rev, Hlen8.
    assert (R0' : Forall (fun b => 0 <= b < 256) (firstn 8 W)) by (apply Forall_window; exact Hv).
    pose proof (le_value_range _ (Forall_rev R0')) as Q0.
    pose proof (le_value_range _ (Forall_rev R8')) as Q8.
    rewrite length_rev in Q0, Q8. rewrite Hlen in Q0. rewrite Hlen8 in Q8.
    change (8 * Z.of_nat 8) with 64 in Q0, Q8.
    apply signed_combine; assumption.
Qed.

(** *** Decorating a class without a base *)

Lemma nth_app_at {T} (h l : list T) i : nth_error (h ++ l) (List.length h + i) = nth_error l i.
Proof. rewrite nth_error_app2 by lia. f_equal. lia. Qed.

Lemma replace_app_at {T} (h l : list T) i x :
  replace_nth (h ++ l) (List.length h + i) x = h ++ replace_nth l i x.
Proof.
  induction h as [|y h IH]; cbn [app List.length Nat.add]; [reflexivity|].
  cbn [replace_nth]. now rewrite IH.
Qed.

Lemma nth_app_at0 {T} (h l : list T) : nth_error (h ++ l) (List.length h) = nth_error l 0.
Proof. rewrite <- (nth_app_at h l 0). f_equal. lia. Qed.

Lemma replace_app_at0 {T} (h l : list T) x :
  replace_nth (h ++ l) (List.length h) x = h ++ replace_nth l 0 x.
Proof. rewrite <- (replace_app_at h l 0). f_equal. lia. Qed.


Lemma get_struct_fresh h items :
  get_struct (fresh_heap h items) (List.length h) = Some (List.length h + 1)%nat.
Proof.
  unfold get_struct, fresh_heap. rewrite length_app. cbn [List.length].
  replace (List.length h + 3)%nat with (S (List.length h + 2)) by lia.
  cbn [get_struct_fuel]. rewrite <- (Nat.add_0_r (List.length h)) at 3.
  rewrite nth_app_at. reflexivity.
Qed.

Lemma member_step h items mi :
  mi_name mi <> "" ->
  member_decorator (fresh_heap h items) (List.length h) mi = Ok (fresh_heap h (items ++ [mi])).
Proof.
  intros Hn. unfold member_decorator.
  destruct (String.eqb_spec (mi_name mi) "") as [E|_]; [contradiction|].
  unfold ensure_struct. rewrite get_struct_fresh. cbn [bind].
  unfold ensure_init, fresh_heap. rewrite nth_app_at. cbn [nth_error bind].
  unfold read_init. rewrite nth_app_at. cbn [nth_error bind].
  rewrite replace_app_at. reflexivity.
Qed.

Lemma member_first h mi :
  mi_name mi <> "" ->
  member_decorator (h ++ [HMeta None None]) (List.length h) mi = Ok (fresh_heap h [mi]).
Proof.
  intros Hn. unfold member_decorator.
  destruct (String.eqb_spec (mi_name mi) "") as [E|_]; [contradiction|].
  unfold ensure_struct, get_struct. rewrite length_app. cbn [List.length].
  rewrite Nat.add_1_r. cbn [get_struct_fuel].
  rewrite nth_app_at0. cbn [nth_error].
  unfold alloc, set_own_struct. rewrite <- app_assoc. cbn [app].
  rewrite nth_app_at0. cbn [nth_error bind]. rewrite replace_app_at0. cbn [replace_nth].
  rewrite length_app. cbn [List.length].
  unfold ensure_init. rewrite nth_app_at. cbn [nth_error].
  unfold alloc. rewrite <- app_assoc, length_app. cbn [app List.length].
  rewrite replace_app_at. cbn [replace_nth bind].
  replace (List.length h + 1 + 1)%nat with (List.length h + 2)%nat by lia.
  unfold read_init. rewrite nth_app_at. cbn [nth_error bind].
  rewrite replace_app_at. reflexivity.
Qed.

Lemma struct_fresh h items o :
  struct_decorator (fresh_heap h items) (List.length h) o =
  let* m := layout (fresh_heap h items) o items in
  Ok (h ++ [HMeta None (Some (List.length h + 3)%nat); HStruct (Some (List.length h + 2)%nat) None;
            HInit items; HStruct None (Some m)]).
Proof.
  unfold struct_decorator, ensure_struct. rewrite get_struct_fresh. cbn [bind].
  unfold ensure_init. unfold fresh_heap at 1. rewrite nth_app_at. cbn [nth_error bind].
  unfold read_init. unfold fresh_heap at 1. rewrite nth_app_at. cbn [nth_error bind].
  destruct (layout (fresh_heap h items) o items) as [m|e]; cbn [bind]; [|reflexivity].
  unfold alloc, set_own_struct, fresh_heap. rewrite <- app_assoc. cbn [app].
  rewrite nth_app_at0. cbn [nth_error]. rewrite replace_app_at0, length_app. reflexivity.
Qed.

Lemma struct_first h o :
  struct_decorator (h ++ [HMeta None None]) (List.length h) o =
  let* m := layout (fresh_heap h []) o [] in
  Ok (h ++ [HMeta None (Some (List.length h + 3)%nat); HStruct (Some (List.length h + 2)%nat) None;
            HInit []; HStruct None (Some m)]).
Proof.
  unfold struct_decorator at 1, ensure_struct at 1, get_struct.
  rewrite length_app. cbn [List.length].
  rewrite Nat.add_1_r. cbn [get_struct_fuel].
  rewrite nth_app_at0. cbn [nth_error].
  unfold alloc at 1, set_own_struct. rewrite <- app_assoc. cbn [app].
  rewrite nth_app_at0. cbn [nth_error bind]. rewrite replace_app_at0. cbn [replace_nth].
  rewrite length_app. cbn [List.length].
  unfold ensure_init. rewrite nth_app_at. cbn [nth_error].
  unfold alloc at 1. rewrite <- app_assoc, length_app. cbn [app List.length].
  rewrite replace_app_at. cbn [replace_nth bind].
  replace (List.length h + 1 + 1)%nat with (List.length h + 2)%nat by lia.
  unfold read_init. rewrite nth_app_at. cbn [nth_error bind].
  change (h ++ [HMeta None (Some (List.length h + 1)%nat); HStruct (Some (List.length h + 2)%nat) None;
                HInit []]) with (fresh_heap h []).
  destruct (layout (fresh_heap h []) o []) as [m|e]; cbn [bind]; [|reflexivity].
  unfold alloc, fresh_heap. rewrite <- app_assoc. cbn [app].
  rewrite nth_app_at0. cbn [nth_error]. rewrite replace_app_at0, length_app. reflexivity.
Qed.

Lemma fold_members h items fields :
  Forall (fun mi => mi_name mi <> "") fields ->
  fold_result (fun h' f => member_decorator h' (List.length h) f) fields (fresh_heap h items)
  = Ok (fresh_heap h (items ++ fields)).
Proof.
  intros Hf; revert items; induction Hf as [|mi rest Hmi Hrest IH]; intros items; cbn [fold_result].
  - now rewrite app_nil_r.
  - rewrite member_step by exact Hmi. cbn [bind]. rewrite IH, <- app_assoc. reflexivity.
Qed.

(** [define_class] without a base, as one equation. *)
Lemma define_class_fresh h o fields :
  Forall (fun mi => mi_name mi <> "") fields ->
  define_class h None o fields =
  let* m := layout (fresh_heap h fields) o fields in
  Ok (h ++ [HMeta None (Some (List.length h + 3)%nat); HStruct (Some (List.length h + 2)%nat) None;
            HInit fields; HStruct None (Some m)], List.length h).
Proof.
  intros Hf. unfold define_class, alloc.
  destruct Hf as [|mi rest Hmi Hrest]; cbn [fold_result bind].
  - rewrite struct_first. destruct (layout _ o []); reflexivity.
  - rewrite member_first by exact Hmi. cbn [bind].
    rewrite fold_members by exact Hrest. cbn [app bind].
    rewrite struct_fresh. destruct (layout _ o _); reflexivity.
Qed.

(** Decorating a class with no base class whose member names are nonempty: the class gets
    the next free heap cell, the heap before it is untouched, and its struct metadata is
    the layout of its members (computed with the class's own init list in place); if the
    layout throws, the decorator throws the same error. *)
Theorem define_class_metadata h o fields :
  Forall (fun mi => mi_name mi <> "") fields ->
  match define_class h None o fields with
  | Ok (h', c) =>
      c = List.length h /\ firstn (List.length h) h' = h /\
      class_meta h' c = layout (fresh_heap h fields) o fields
  | Throw e => layout (fresh_heap h fields) o fields = Throw e
  end.
Proof.
  intros Hf. rewrite define_class_fresh by exact Hf.
  destruct (layout (fresh_heap h fields) o fields) as [m|e]; cbn [bind]; [|reflexivity].
  split; [reflexivity|]. split; [apply firstn_app_len; reflexivity|].
  unfold class_meta, get_struct. rewrite length_app. cbn [List.length].
  replace (List.length h + 4)%nat with (S (List.length h + 3)) by lia. cbn [get_struct_fuel].
  rewrite nth_app_at0. cbn [nth_error]. rewrite nth_app_at. reflexivity.
Qed.

Lemma fold_result_app {A B} (f : A -> B -> result A) l1 l2 a :
  fold_result f (l1 ++ l2) a = let* a' := fold_result f l1 a in fold_result f l2 a'.
Proof.
  revert a; induction l1 as [|x l1 IH]; intros a; cbn [app fold_result bind]; [reflexivity|].
  destruct (f a x); cbn [bind]; [apply IH | reflexivity].
Qed.

(** A member with the empty name makes the class decoration throw the [ReferenceError]
    "Invalid name for struct member", whatever the members after it. *)
Theorem define_class_empty_name h o pre mi post :
  Forall (fun f => mi_name f <> "") pre -> mi_name mi = "" ->
  define_class h None o (pre ++ mi :: post) = Throw (ReferenceError "Invalid name for struct member").
Proof.
  intros Hpre Hmi. unfold define_class, alloc.
  assert (Hthrow : forall h' md, member_decorator h' md mi = Throw (ReferenceError "Invalid name for struct member"))
    by (intros; unfold member_decorator; rewrite Hmi; reflexivity).
  rewrite fold_result_app.
  destruct Hpre as [|f pre' Hf Hpre']; cbn [fold_result bind].
  - rewrite Hthrow. reflexivity.
  - rewrite member_first by exact Hf. cbn [bind]. rewrite fold_members by exact Hpre'.
    cbn [bind fold_result]. rewrite Hthrow. reflexivity.
Qed.

(** *** [offsetof] on a dynamic instance *)

(** On an instance of a dynamic struct, [offsetof] returns the member's entry in the
    instance's dynamic offsets, and throws "Struct does not have member: <name>" when
    there is none. *)
Theorem offsetof_dynamic h c fields m offs name :
  class_meta h c = Ok m -> md_isDynamic m = true -> dynamicOffsets h m fields = Ok offs ->
  offsetof_instance h c fields name =
  match assoc name offs with
  | Some o => Ok o
  | None => Throw (Error (String.append "Struct does not have member: " name))
  end.
Proof.
  intros Hm Hd Ho. unfold offsetof_instance. rewrite Hm. cbn [bind]. rewrite Hd. cbn [negb].
  unfold dynamicOffsets in Ho.
  destruct (fold_result _ (md_members m) ([], Fin 0)) as [[offs' last]|e] eqn:Hf; cbn [bind] in Ho; [|discriminate].
  injection Ho as <-.
  match goal with
  | Hf : fold_result ?F _ _ = _ |- ?W (md_members m) (Fin 0) = ?RHS =>
    assert (Gen : forall ms acc off offs' last, fold_result F ms (acc, off) = Ok (offs', last) ->
              exists L, offs' = acc ++ L /\
                W ms off = match assoc name L with
                           | Some o => Ok o
                           | None => Throw (Error (String.append "Struct does not have member: " name))
                           end)
  end.
  { induction ms as [|[nm mem] ms IH]; intros acc off o' l' Hfold; cbn [fold_result] in Hfold.
    - injection Hfold as <- <-. exists []. rewrite app_nil_r. split; reflexivity.
    - destruct (memberLength fields nm (m_length mem)) as [len|e] eqn:El; cbn [bind] in Hfold; [|discriminate].
      destruct (sizeof_mtype h (m_type mem)) as [sz|e] eqn:Es; cbn [bind] in Hfold; [|discriminate].
      apply IH in Hfold as [L [-> HW]].
      exists ((nm, off) :: L). rewrite <- app_assoc. split; [reflexivity|].
      cbn [assoc]. rewrite (String.eqb_sym name nm).
      cbn. destruct (String.eqb nm name); [reflexivity|].
      rewrite ?El, ?Es; cbn [bind]; exact HW. }
  destruct (Gen _ _ _ _ _ Hf) as [L [-> HW]]. exact HW.
Qed.

(** *** Length of the serialized buffer *)

Lemma serialize_element_length fb ser h le fields name t length base st i st' :
  serialize_element fb ser h le fields name t length base st i = Ok st' ->
  List.length (fst st') = List.length (fst st).
Proof.
  destruct st as [buffer log]. unfold serialize_element.
  destruct (sizeof_mtype h t) as [sz|e]; cbn [bind]; [|discriminate].
  destruct (element_value fields name length i) as [v|e]; cbn [bind]; [|discriminate].
  destruct t as [p|c'].
  - destruct (prim_raw fb p v) as [raw|e]; cbn [bind]; [|discriminate].
    destruct (dv_put buffer _ _) as [b'|e] eqn:E; cbn [bind]; [|discriminate].
    intros H; injection H as <-. apply dv_put_ok in E as (H0 & H1 & ->). cbn [fst].
    apply length_put_bytes. lia.
  - destruct (if truthy v then _ else _) as [src|e]; cbn [bind]; [|discriminate].
    destruct (dv_put buffer _ _) as [b'|e] eqn:E; cbn [bind]; [|discriminate].
    intros H; injection H as <-. apply dv_put_ok in E as (H0 & H1 & ->). cbn [fst].
    apply length_put_bytes. lia.
Qed.

Lemma serialize_buffer_length fb h c fields buf :
  serialize fb h (JInst c fields) = Ok buf ->
  sizeof_instance h c fields = Ok (Fin (Z.of_nat (List.length buf))) \/
  (sizeof_instance h c fields = Ok NaN /\ buf = []).
Proof.
  unfold serialize. cbn [depth serialize_walk].
  destruct (class_meta h c) as [m|e] eqn:Hm; cbn [bind]; [|discriminate].
  destruct (sizeof_instance h c fields) as [size|e] eqn:Hs; cbn [bind]; [|discriminate].
  destruct (new_uint8array size) as [b0|e] eqn:Hn; cbn [bind]; [|discriminate].
  destruct (if md_isDynamic m then _ else _) as [offs|e]; cbn [bind]; [|discriminate].
  destruct (fold_result _ _ _) as [[b log]|e] eqn:Hf; cbn [bind]; [|discriminate].
  intros H; injection H as <-. cbn [fst].
  assert (Hl : List.length b = List.length b0).
  { refine (fold_result_inv (fun st => List.length (fst st) = List.length b0) _ _ _ _ Hf _ _).
    - intros [b1 l1] [name mem] st' _ Hx Hb1.
      destruct (memberLength fields name (m_length mem)) as [len|e]; cbn [bind] in Hx; [|discriminate].
      refine (fold_result_inv (fun st => List.length (fst st) = List.length b0) _ _ _ _ Hx _ Hb1).
      intros a x b2 _ Hel Ha. rewrite (serialize_element_length _ _ _ _ _ _ _ _ _ _ _ _ Hel). exact Ha.
    - reflexivity. }
  destruct size as [z|]; cbn [new_uint8array] in Hn.
  - destruct (Z.leb_spec 0 z); [|discriminate]. injection Hn as <-. left.
    rewrite Hl, repeat_length. do 2 f_equal. lia.
  - injection Hn as <-. right. split; [reflexivity|]. apply length_zero_iff_nil. exact Hl.
Qed.

(** *** What [deserialize] writes *)

Lemma deserialize_element_fields fv des h le c buffer name t length st i st' :
  deserialize_element fv des h le c buffer name t length st i = Ok st' ->
  forall k, k <> name -> get_field (fst st') k = get_field (fst st) k.
Proof.
  destruct st as [fields log]. unfold deserialize_element. intros H k Hk.
  destruct (sizeof_mtype h t) as [sz|e]; cbn [bind] in H; [|discriminate].
  destruct (offsetof_instance h c fields name) as [base|e]; cbn [bind] in H; [|discriminate].
  revert H. cbn [fst].
  destruct (get_field fields name).
  all: try solve [(destruct (dv_get buffer _ 1); cbn [bind]; [|discriminate];
      intros H; injection H as <-; apply get_field_map_set_other; exact Hk)].
  all: destruct t as [p|tc].
  all: try (unfold prim_read; destruct (no_accessor p); [discriminate|];
            destruct (dv_get buffer _ _); cbn [bind]; [|discriminate]).
  all: split_result; intros H; injection H as <-; cbn [fst];
       first [reflexivity | apply get_field_map_set_other; exact Hk].
Qed.

(** Deserializing into an instance only writes the struct's members: the result is an
    instance of the same class whose properties other than the members are those of the
    instance before. *)
Theorem deserialize_other_properties fv h c F0 buf m r :
  class_meta h c = Ok m -> deserialize fv h (JInst c F0) buf = Ok r ->
  exists F, r = JInst c F /\
    forall k, ~ In k (map fst (md_members m)) -> get_field F k = get_field F0 k.
Proof.
  intros Hm. unfold deserialize. cbn [depth deserialize_walk]. rewrite Hm. cbn [bind].
  destruct (fold_result _ _ _) as [[F log]|e] eqn:Hf; cbn [bind]; [|discriminate].
  intros H; injection H as <-. exists F. split; [reflexivity|].
  intros k Hk.
  refine (fold_result_inv (fun st => get_field (fst st) k = get_field F0 k) _ _ _ _ Hf _ eq_refl).
  intros st [name mem] st' Hin Hx Hst.
  assert (Hne : k <> name).
  { intros ->. apply Hk. apply (in_map fst) in Hin. exact Hin. }
  destruct (memberLength (fst st) name (m_length mem)) as [len|e]; cbn [bind] in Hx; [|discriminate].
  destruct (if md_isDynamic m then _ else _) as [?|e]; cbn [bind] in Hx; [|discriminate].
  refine (fold_result_inv (fun st => get_field (fst st) k = get_field F0 k) _ _ _ _ Hx _ Hst).
  intros a0 i b0 _ Hel Ha. rewrite (deserialize_element_fields _ _ _ _ _ _ _ _ _ _ _ _ Hel k Hne). exact Ha.
Qed.

(** *** [sizeof] of an instance *)

(** The size of an instance depends on the instance only through the counted members'
    own properties ([sizeof] passes the member's name where [_memberLength] expects the
    property holding the length): two instances that agree on these have the same size. *)
Theorem sizeof_instance_reads_member h c m fields fields' :
  class_meta h c = Ok m ->
  (forall name mem, In (name, mem) (md_members m) -> is_counted (m_length mem) = true ->
     assoc name fields = assoc name fields') ->
  sizeof_instance h c fields = sizeof_instance h c fields'.
Proof.
  intros Hm Hsame. unfold sizeof_instance. rewrite Hm. cbn [bind].
  generalize (md_staticSize m).
  induction (md_members m) as [|[name mem] ms IH]; intros size; cbn [fold_result]; [reflexivity|].
  destruct (m_length mem) as [[n|key]|] eqn:El; cbn [bind].
  - apply IH. intros; eapply Hsame; [right|]; eassumption.
  - destruct (sizeof_mtype h (m_type mem)) as [sz|e]; cbn [bind]; [|reflexivity].
    assert (E : memberLength fields key (Some (LName name)) = memberLength fields' key (Some (LName name))).
    { unfold memberLength. rewrite (Hsame name mem (or_introl eq_refl)) by (rewrite El; reflexivity).
      reflexivity. }
    rewrite E. destruct (memberLength fields' key (Some (LName name))); cbn [bind]; [|reflexivity].
    apply IH. intros; eapply Hsame; [right|]; eassumption.
  - apply IH. intros; eapply Hsame; [right|]; eassumption.
Qed.

Lemma memberLength_throw fields name l e :
  memberLength fields name l = Throw e -> exists msg, e = Error msg.
Proof.
  unfold memberLength. destruct l as [[n|k]|]; [| |discriminate].
  - destruct (_ && _); [discriminate|]. intros H; injection H as <-; eexists; reflexivity.
  - destruct (assoc k fields) as [[]|]; try discriminate;
      try destruct (existsb _ _); intros H; injection H as <-; eexists; reflexivity.
Qed.

(** If a counted member's own property on an instance does not hold a number ([NaN]
    counts as a number), [sizeof] cannot compute that member's length: [sizeof] and
    [serialize] both throw an [Error], with the same message (given that the counted
    members' types have a size). *)
Theorem sizeof_counted_not_number fb h c m fields name mem key :
  class_meta h c = Ok m -> In (name, mem) (md_members m) -> m_length mem = Some (LName key) ->
  (forall n, assoc name fields <> Some (JNum n)) -> assoc name fields <> Some JNaN ->
  Forall (fun nm => is_counted (m_length (snd nm)) = true ->
                    is_ok (sizeof_mtype h (m_type (snd nm))) = true) (md_members m) ->
  exists msg, sizeof_instance h c fields = Throw (Error msg) /\
              serialize fb h (JInst c fields) = Throw (Error msg).
Proof.
  intros Hm Hin Hl Hnum Hnan Hsz.
  assert (Hs : exists msg, sizeof_instance h c fields = Throw (Error msg)).
  { unfold sizeof_instance. rewrite Hm. cbn [bind].
    generalize (md_staticSize m). revert Hin Hsz.
    induction (md_members m) as [|[nm' mem'] ms IH]; intros Hin Hsz size; [destruct Hin|].
    inversion Hsz as [|? ? Hx Hsz']; subst. cbn [snd] in Hx.
    cbn [fold_result].
    assert (Hcase : forall key', m_length mem' = Some (LName key') ->
              exists sz, sizeof_mtype h (m_type mem') = Ok sz).
    { intros key' E. rewrite E in Hx. specialize (Hx eq_refl).
      destruct (sizeof_mtype h (m_type mem')) as [sz|]; [exists sz; reflexivity | discriminate]. }
    destruct Hin as [E | Hin].
    - injection E as -> ->. rewrite Hl. destruct (Hcase key Hl) as [sz ->]. cbn [bind].
      unfold memberLength. destruct (assoc name fields) as [v|] eqn:Ev.
      + destruct v; try (eexists; reflexivity); exfalso; [eapply Hnum | apply Hnan]; reflexivity.
      + destruct (existsb _ _); eexists; reflexivity.
    - destruct (m_length mem') as [[n|key']|] eqn:El; cbn [bind].
      + apply IH; assumption.
      + destruct (Hcase key' eq_refl) as [sz ->]. cbn [bind].
        destruct (memberLength fields key' (Some (LName nm'))) as [n'|e] eqn:En; cbn [bind].
        * apply IH; assumption.
        * apply memberLength_throw in En as [msg ->]. eexists; reflexivity.
      + apply IH; assumption. }
  destruct Hs as [msg Hs]. exists msg. split; [exact Hs|].
  unfold serialize. cbn [depth serialize_walk]. rewrite Hm. cbn [bind]. rewrite Hs. reflexivity.
Qed.

(** *** Padding bytes *)

Lemma nth_put_outside v o bs q :
  (o + List.length bs <= List.length v)%nat -> (q < o \/ o + List.length bs <= q)%nat ->
  nth q (put_bytes v o bs) 0 = nth q v 0.
Proof.
  intros Hl Hq. unfold put_bytes. destruct Hq as [Hq|Hq].
  - rewrite app_nth1 by (rewrite length_firstn; lia). rewrite nth_firstn.
    destruct (Nat.ltb_spec q o); [reflexivity | lia].
  - rewrite app_nth2 by (rewrite length_firstn; lia). rewrite length_firstn.
    rewrite app_nth2 by lia. rewrite nth_skipn. f_equal. lia.
Qed.

(** In the buffer [serialize] returns for a static struct of primitive members, a byte
    that no element of any member covers (padding between or after the members) is 0.
    Element [i] of a member is written at [offset + i * size]: the member's offset and
    the product added as numbers, [NaN] ([ToIntegerOrInfinity]) making the write go to
    byte 0. *)
Theorem serialize_zero_padding fb h c fields m buf (q : nat) :
  class_meta h c = Ok m -> md_isDynamic m = false ->
  Forall (fun nm => exists p, m_type (snd nm) = MPrim p) (md_members m) ->
  (forall name mem p len (i : nat), In (name, mem) (md_members m) -> m_type mem = MPrim p ->
     memberLength fields name (m_length mem) = Ok len -> In i (indices len) ->
     Z.of_nat q < to_int (num_add (staticOffset mem) (Fin (bytes_of p * Z.of_nat i))) \/
     to_int (num_add (staticOffset mem) (Fin (bytes_of p * Z.of_nat i))) + bytes_of p <= Z.of_nat q) ->
  serialize fb h (JInst c fields) = Ok buf ->
  nth q buf 0 = 0.
Proof.
  intros Hm Hd Hprim Hout. unfold serialize. cbn [depth serialize_walk]. rewrite Hm. cbn [bind].
  destruct (sizeof_instance h c fields) as [size|e]; cbn [bind]; [|discriminate].
  destruct (new_uint8array size) as [b0|e] eqn:Hn; cbn [bind]; [|discriminate].
  rewrite Hd. cbn [bind].
  destruct (fold_result _ _ _) as [[b log]|e] eqn:Hf; cbn [bind]; [|discriminate].
  intros H; injection H as <-. cbn [fst].
  refine (fold_result_inv (fun st => nth q (fst st) 0 = 0) _ _ _ _ Hf _ _).
  2:{ cbn [fst]. destruct size as [z|]; cbn [new_uint8array] in Hn.
      - destruct (0 <=? z); [injection Hn as <-|discriminate].
        destruct (Nat.ltb_spec q (Z.to_nat z)).
        + apply nth_repeat.
        + apply nth_overflow. rewrite repeat_length. lia.
      - injection Hn as <-. destruct q; reflexivity. }
  intros [b0' l0] [name mem] st' Hin Hx Hb0.
  destruct (memberLength fields name (m_length mem)) as [len|e] eqn:El; cbn [bind] in Hx; [|discriminate].
  rewrite Forall_forall in Hprim. destruct (Hprim _ Hin) as [p Hp]. cbn [snd] in Hp.
  refine (fold_result_inv (fun st => nth q (fst st) 0 = 0) _ _ _ _ Hx _ Hb0).
  intros [b1 l1] i st'' Hi Hel Hb1. cbn [fst] in Hb1.
  specialize (Hout name mem p len i Hin Hp El Hi).
  unfold serialize_element in Hel. rewrite Hp in Hel. cbn [sizeof_mtype bind] in Hel.
  destruct (element_value fields name len i) as [v|e]; cbn [bind] in Hel; [|discriminate].
  destruct (prim_raw fb p v) as [raw|e]; cbn [bind] in Hel; [|discriminate].
  cbn [num_mul] in Hel. change (p_bits p / 8) with (bytes_of p) in Hel.
  set (off := to_int (num_add (staticOffset mem) (Fin (bytes_of p * Z.of_nat i)))) in Hel, Hout.
  destruct (dv_put b1 off _) as [b'|e] eqn:E; cbn [bind] in Hel; [|discriminate].
  injection Hel as <-. cbn [fst].
  apply dv_put_ok in E as (H0 & H1 & ->). rewrite encode_length in H1.
  rewrite nth_put_outside; [exact Hb1 | rewrite encode_length; lia |].
  rewrite encode_length.
  destruct (Z.leb_spec 0 (bytes_of p)); [lia|].
  replace (Z.to_nat (bytes_of p)) with 0%nat by lia. lia.
Qed.

(** The buffer [serialize] returns has exactly the length [sizeof] gives for the
    instance; when that size is [NaN] (a member of a class whose [@struct] has not
    finished), [new Uint8Array(NaN)] is empty and so is the buffer. *)
Theorem serialize_length fb h c fields buf :
  serialize fb h (JInst c fields) = Ok buf ->
  sizeof_instance h c fields = Ok (Fin (Z.of_nat (List.length buf))) \/
  (sizeof_instance h c fields = Ok NaN /\ buf = []).
Proof. apply serialize_buffer_length. Qed.

(** For a struct with no counted member, the buffer [serialize] returns has the static
    size of the struct as its length, whatever the instance; a static size of [NaN]
    gives the empty buffer. *)
Theorem serialize_static_size fb h c m fields buf :
  class_meta h c = Ok m ->
  Forall (fun nm => is_counted (m_length (snd nm)) = false) (md_members m) ->
  serialize fb h (JInst c fields) = Ok buf ->
  md_staticSize m = Fin (Z.of_nat (List.length buf)) \/ (md_staticSize m = NaN /\ buf = []).
Proof.
  intros Hm Hf Hs. apply serialize_buffer_length in Hs.
  rewrite (sizeof_instance_static h c m fields Hm) in Hs.
  - destruct Hs as [Hs | [Hs Hb]]; [left | right]; injection Hs as ->; auto.
  - eapply Forall_impl; [|exact Hf]. intros [n mem] Hc k Hk. cbn [snd] in Hc, Hk.
    rewrite Hk in Hc. discriminate.
Qed.

(** *** When the layout succeeds *)

(** The [@struct] layout succeeds exactly when every member's type resolves: the
    member sizes, offsets and the struct size are then always computed, [NaN] ones
    included. *)
Theorem layout_ok_iff h o inits :
  is_ok (layout h o inits) = true <->
  Forall (fun mi => is_ok (member_type h (mi_type mi)) = true) inits.
Proof.
  split.
  - unfold layout. generalize (Fin 0), false, (@nil (string * Member)).
    induction inits as [|mi rest IH]; intros s d mem Hl; [constructor|].
    cbn [layout_loop] in Hl.
    destruct (member_type h (mi_type mi)) as [t|e] eqn:Ht; cbn [bind] in Hl; [|discriminate].
    destruct (memberSize h mi) as [sz|e] eqn:Hs; cbn [bind] in Hl; [|discriminate].
    constructor; [rewrite Ht; reflexivity|]. eapply IH; exact Hl.
  - intros Hf. destruct (layout_loop_total h o inits (Fin 0) false [] Hf) as [m [Hl _]].
    unfold layout. rewrite Hl. reflexivity.
Qed.

(** *** Witnesses of the further properties *)

Ltac open_example E :=
  let r := eval vm_compute in E in
  replace E with r by (vm_compute; reflexivity); cbv beta iota.

Lemma int128_get_one_read_witness :
  Forall (fun b => 0 <= b < 256) (repeat 255 16) /\
  int128_get (repeat 255 16) 0 true
  = (let* bs := dv_get (repeat 255 16) 0 16 in Ok (to_signed 128 (decode bs true))).
Proof.
  assert (Hv : Forall (fun b => 0 <= b < 256) (repeat 255 16)).
  { apply Forall_forall. intros x Hx. apply repeat_spec in Hx. lia. }
  exact (conj Hv (int128_get_one_read (repeat 255 16) 0 true Hv)).
Defined.

Lemma define_class_metadata_witness :
  Forall (fun mi => mi_name mi <> "") [mkInit "a" (TName "uint8") None] /\
  match define_class [] None default_options [mkInit "a" (TName "uint8") None] with
  | Ok (h', c) =>
      c = List.length (@nil hobj) /\ firstn (List.length (@nil hobj)) h' = [] /\
      class_meta h' c = layout (fresh_heap [] [mkInit "a" (TName "uint8") None]) default_options
                          [mkInit "a" (TName "uint8") None]
  | Throw e => layout (fresh_heap [] [mkInit "a" (TName "uint8") None]) default_options
                 [mkInit "a" (TName "uint8") None] = Throw e
  end.
Proof.
  assert (Hf : Forall (fun mi => mi_name mi <> "") [mkInit "a" (TName "uint8") None]).
  { apply Forall_cons; [cbn; discriminate | apply Forall_nil]. }
  exact (conj Hf (define_class_metadata [] default_options _ Hf)).
Defined.

Lemma define_class_empty_name_witness :
  Forall (fun f => mi_name f <> "") [mkInit "a" (TName "uint8") None] /\
  mi_name (mkInit "" (TName "uint8") None) = "" /\
  define_class [] None default_options
    ([mkInit "a" (TName "uint8") None] ++ mkInit "" (TName "uint8") None :: [])
  = Throw (ReferenceError "Invalid name for struct member").
Proof.
  assert (Hf : Forall (fun f => mi_name f <> "") [mkInit "a" (TName "uint8") None]).
  { apply Forall_cons; [cbn; discriminate | apply Forall_nil]. }
  assert (He : mi_name (mkInit "" (TName "uint8") None) = "") by reflexivity.
  exact (conj Hf (conj He (define_class_empty_name [] default_options _ _ [] Hf He))).
Defined.

Lemma offsetof_dynamic_witness :
  match counted_example with
  | Ok (h, c) =>
      exists m offs,
        class_meta h c = Ok m /\ md_isDynamic m = true /\
        dynamicOffsets h m [("n", JNum 2); ("data", JArr [JNum 5; JNum 6])] = Ok offs /\
        offsetof_instance h c [("n", JNum 2); ("data", JArr [JNum 5; JNum 6])] "data" = Ok (Fin 1)
  | Throw _ => False
  end.
Proof.
  open_example counted_example.
  match goal with |- exists m offs, class_meta ?h ?c = Ok m /\ _ /\ dynamicOffsets _ _ ?F = _ /\ _ =>
    let mm := eval vm_compute in (class_meta h c) in
    match mm with Ok ?m =>
      let oo := eval vm_compute in (dynamicOffsets h m F) in
      match oo with Ok ?offs =>
        exists m, offs;
        assert (Hm : class_meta h c = Ok m) by (vm_compute; reflexivity);
        assert (Hd : md_isDynamic m = true) by reflexivity;
        assert (Ho : dynamicOffsets h m F = Ok offs) by (vm_compute; reflexivity);
        split; [exact Hm|]; split; [exact Hd|]; split; [exact Ho|];
        rewrite (offsetof_dynamic h c F m offs "data" Hm Hd Ho); reflexivity
      end
    end
  end.
Defined.

Lemma serialize_length_witness :
  match aligned_pair_example with
  | Ok (h, c) =>
      exists buf, serialize no_float_bits h (JInst c [("a", JNum 1); ("b", JNum 2)]) = Ok buf /\
        (sizeof_instance h c [("a", JNum 1); ("b", JNum 2)] = Ok (Fin (Z.of_nat (List.length buf))) \/
         (sizeof_instance h c [("a", JNum 1); ("b", JNum 2)] = Ok NaN /\ buf = []))
  | Throw _ => False
  end.
Proof.
  open_example aligned_pair_example.
  match goal with |- exists buf, serialize ?fb ?h ?i = Ok buf /\ _ =>
    let r := eval vm_compute in (serialize fb h i) in
    match r with Ok ?buf =>
      exists buf;
      assert (Hs : serialize fb h i = Ok buf) by (vm_compute; reflexivity);
      exact (conj Hs (serialize_length _ _ _ _ _ Hs))
    end
  end.
Defined.

Lemma serialize_static_size_witness :
  match aligned_pair_example with
  | Ok (h, c) =>
      exists m buf, class_meta h c = Ok m /\
        Forall (fun nm => is_counted (m_length (snd nm)) = false) (md_members m) /\
        serialize no_float_bits h (JInst c [("a", JNum 1); ("b", JNum 2)]) = Ok buf /\
        (md_staticSize m = Fin (Z.of_nat (List.length buf)) \/ (md_staticSize m = NaN /\ buf = []))
  | Throw _ => False
  end.
Proof.
  open_example aligned_pair_example.
  match goal with |- exists m buf, class_meta ?h ?c = Ok m /\ _ /\ serialize ?fb _ ?i = Ok buf /\ _ =>
    let mm := eval vm_compute in (class_meta h c) in
    let r := eval vm_compute in (serialize fb h i) in
    match mm with Ok ?m => match r with Ok ?buf =>
      exists m, buf;
      assert (Hm : class_meta h c = Ok m) by (vm_compute; reflexivity);
      assert (Hf : Forall (fun nm => is_counted (m_length (snd nm)) = false) (md_members m))
        by (apply Forall_cons; [reflexivity|]; apply Forall_cons; [reflexivity|]; apply Forall_nil);
      assert (Hs : serialize fb h i = Ok buf) by (vm_compute; reflexivity);
      exact (conj Hm (conj Hf (conj Hs (serialize_static_size _ _ _ _ _ _ Hm Hf Hs))))
    end end
  end.
Defined.

Lemma deserialize_other_properties_witness :
  match aligned_pair_example with
  | Ok (h, c) =>
      exists m r, class_meta h c = Ok m /\
        deserialize no_float_value h (JInst c [("a", JNum 0); ("z", JNum 9)]) [1; 0; 0; 0; 2; 0; 0; 0] = Ok r /\
        exists F, r = JInst c F /\
          forall k, ~ In k (map fst (md_members m)) -> get_field F k = get_field [("a", JNum 0); ("z", JNum 9)] k
  | Throw _ => False
  end.
Proof.
  open_example aligned_pair_example.
  match goal with |- exists m r, class_meta ?h ?c = Ok m /\ deserialize ?fv _ (JInst _ ?F0) ?b = Ok r /\ _ =>
    let mm := eval vm_compute in (class_meta h c) in
    let rr := eval vm_compute in (deserialize fv h (JInst c F0) b) in
    match mm with Ok ?m => match rr with Ok ?r =>
      exists m, r;
      assert (Hm : class_meta h c = Ok m) by (vm_compute; reflexivity);
      assert (Hd : deserialize fv h (JInst c F0) b = Ok r) by (vm_compute; reflexivity);
      exact (conj Hm (conj Hd (deserialize_other_properties _ _ _ _ _ _ _ Hm Hd)))
    end end
  end.
Defined.

Lemma sizeof_instance_reads_member_witness :
  match counted_example with
  | Ok (h, c) =>
      exists m, class_meta h c = Ok m /\
        (forall name mem, In (name, mem) (md_members m) -> is_counted (m_length mem) = true ->
           assoc name [("n", JNum 2); ("data", JNum 3)] = assoc name [("n", JNum 7); ("data", JNum 3)]) /\
        sizeof_instance h c [("n", JNum 2); ("data", JNum 3)]
        = sizeof_instance h c [("n", JNum 7); ("data", JNum 3)] /\
        sizeof_instance h c [("n", JNum 7); ("data", JNum 3)] = Ok (Fin 4)
  | Throw _ => False
  end.
Proof.
  open_example counted_example.
  match goal with |- exists m, class_meta ?h ?c = Ok m /\ _ =>
    let mm := eval vm_compute in (class_meta h c) in
    match mm with Ok ?m =>
      exists m;
      assert (Hm : class_meta h c = Ok m) by (vm_compute; reflexivity);
      assert (Hs : forall name mem, In (name, mem) (md_members m) -> is_counted (m_length mem) = true ->
           assoc name [("n", JNum 2); ("data", JNum 3)] = assoc name [("n", JNum 7); ("data", JNum 3)])
        by (intros name mem Hin Hc; cbn in Hin;
            destruct Hin as [E|[E|[]]]; injection E as <- <-; [discriminate Hc | reflexivity]);
      split; [exact Hm|]; split; [exact Hs|];
      split; [exact (sizeof_instance_reads_member _ _ _ _ _ Hm Hs) | vm_compute; reflexivity]
    end
  end.
Defined.

Lemma sizeof_counted_not_number_witness :
  match counted_example with
  | Ok (h, c) =>
      exists m mem, class_meta h c = Ok m /\ In ("data", mem) (md_members m) /\
        m_length mem = Some (LName "n") /\
        (forall n, assoc "data" [("n", JNum 2); ("data", JArr [JNum 5; JNum 6])] <> Some (JNum n)) /\
        assoc "data" [("n", JNum 2); ("data", JArr [JNum 5; JNum 6])] <> Some JNaN /\
        Forall (fun nm => is_counted (m_length (snd nm)) = true ->
                          is_ok (sizeof_mtype h (m_type (snd nm))) = true) (md_members m) /\
        exists msg, sizeof_instance h c [("n", JNum 2); ("data", JArr [JNum 5; JNum 6])] = Throw (Error msg) /\
          serialize no_float_bits h (JInst c [("n", JNum 2); ("data", JArr [JNum 5; JNum 6])])
          = Throw (Error msg)
  | Throw _ => False
  end.
Proof.
  open_example counted_example.
  match goal with |- exists m mem, class_meta ?h ?c = Ok m /\ _ =>
    let mm := eval vm_compute in (class_meta h c) in
    match mm with Ok ?m =>
      let me := eval vm_compute in (assoc "data" (md_members m)) in
      match me with Some ?mem =>
        exists m, mem;
        assert (Hm : class_meta h c = Ok m) by (vm_compute; reflexivity);
        assert (Hin : In ("data", mem) (md_members m)) by (cbn; right; left; reflexivity);
        assert (Hl : m_length mem = Some (LName "n")) by reflexivity;
        assert (Hn : forall n, assoc "data" [("n", JNum 2); ("data", JArr [JNum 5; JNum 6])] <> Some (JNum n))
          by (intros n E; vm_compute in E; discriminate E);
        assert (Hnan : assoc "data" [("n", JNum 2); ("data", JArr [JNum 5; JNum 6])] <> Some JNaN)
          by (intros E; vm_compute in E; discriminate E);
        assert (Hf : Forall (fun nm => is_counted (m_length (snd nm)) = true ->
                          is_ok (sizeof_mtype h (m_type (snd nm))) = true) (md_members m))
          by (apply Forall_cons; [reflexivity|]; apply Forall_cons; [reflexivity|]; apply Forall_nil);
        exact (conj Hm (conj Hin (conj Hl (conj Hn (conj Hnan (conj Hf
                 (sizeof_counted_not_number no_float_bits _ _ _ _ _ _ _ Hm Hin Hl Hn Hnan Hf)))))))
      end
    end
  end.
Defined.

Lemma serialize_zero_padding_witness :
  match aligned_pair_example with
  | Ok (h, c) =>
      exists m buf, class_meta h c = Ok m /\ md_isDynamic m = false /\
        Forall (fun nm => exists p, m_type (snd nm) = MPrim p) (md_members m) /\
        (forall name mem p len (j : nat), In (name, mem) (md_members m) -> m_type mem = MPrim p ->
           memberLength [("a", JNum 255); ("b", JNum (-1))] name (m_length mem) = Ok len ->
           In j (indices len) ->
           Z.of_nat 2 < to_int (num_add (staticOffset mem) (Fin (bytes_of p * Z.of_nat j))) \/
           to_int (num_add (staticOffset mem) (Fin (bytes_of p * Z.of_nat j))) + bytes_of p <= Z.of_nat 2) /\
        serialize no_float_bits h (JInst c [("a", JNum 255); ("b", JNum (-1))]) = Ok buf /\
        nth 2 buf 0 = 0
  | Throw _ => False
  end.
Proof.
  open_example aligned_pair_example.
  match goal with |- exists m buf, class_meta ?h ?c = Ok m /\ _ /\ _ /\ _ /\ serialize ?fb _ ?inst = Ok buf /\ _ =>
    let mm := eval vm_compute in (class_meta h c) in
    let r := eval vm_compute in (serialize fb h inst) in
    match mm with Ok ?m => match r with Ok ?buf =>
      exists m, buf;
      assert (Hm : class_meta h c = Ok m) by (vm_compute; reflexivity);
      assert (Hd : md_isDynamic m = false) by reflexivity;
      assert (Hp : Forall (fun nm => exists p, m_type (snd nm) = MPrim p) (md_members m))
        by (apply Forall_cons; [eexists; reflexivity|]; apply Forall_cons; [eexists; reflexivity|];
            apply Forall_nil);
      assert (Hs : serialize fb h inst = Ok buf) by (vm_compute; reflexivity);
      assert (Ho : forall name mem p len (j : nat), In (name, mem) (md_members m) -> m_type mem = MPrim p ->
           memberLength [("a", JNum 255); ("b", JNum (-1))] name (m_length mem) = Ok len ->
           In j (indices len) ->
           Z.of_nat 2 < to_int (num_add (staticOffset mem) (Fin (bytes_of p * Z.of_nat j))) \/
           to_int (num_add (staticOffset mem) (Fin (bytes_of p * Z.of_nat j))) + bytes_of p <= Z.of_nat 2)
        by (intros name mem p len j Hin Ht Hl Hj; cbn in Hin;
            destruct Hin as [E|[E|[]]]; injection E as <- <-; cbn in Ht, Hl; injection Ht as <-;
            injection Hl as <-; cbn in Hj; destruct Hj as [<-|[]]; cbn; lia);
      exact (conj Hm (conj Hd (conj Hp (conj Ho (conj Hs
               (serialize_zero_padding _ _ _ _ _ _ 2 Hm Hd Hp Ho Hs))))))
    end end
  end.
Defined.
